(** * Carrier integration client: UPS token lifecycle, mapper and rate service

    A shallow embedding of
      - src/domain/models.ts           (module [Domain])
      - src/errors/index.ts            (modules [Errors], [ErrorHelpers])
      - src/carriers/ups/auth.ts       (modules [Auth], [AuthRuns])
      - src/carriers/ups/mapper.ts     (module [Mapper])
      - src/carriers/ups/service.ts    (modules [Service], [Routes], [Ids])
      - src/utils/index.ts             (modules [Utils], [Ids])
    together with the ECMAScript built-ins these files call (modules [JS],
    [JSText], [Json]), followed by the properties of the specification that
    are settled on it and by further properties of the code. *)

From Stdlib Require Import Ascii String QArith Qabs.
From stdpp Require Import base numbers option list strings pretty gmap.

Local Open Scope string_scope.
Local Open Scope Z_scope.
Local Open Scope list_scope.

(* ===================================================================== *)
(** ** ECMAScript built-ins used by the sources *)
(* ===================================================================== *)

Module JS.

(** A JavaScript [number].  [Fin q] carries the exact real value of a
    finite number.  [parseInt] returns the binary64 number nearest to the
    integer it reads; [parseFloat] and [Number] return the exact value the
    literal denotes (the engine then takes the nearest binary64 number,
    which is not modelled for them; [-0] is [0]). *)
Inductive Num : Type :=
| NaN
| Infinity (negative : bool)
| Fin (q : Q).

Definition isNaN (x : Num) : bool :=
  match x with NaN => true | _ => false end.

Definition negate (x : Num) : Num :=
  match x with
  | NaN => NaN
  | Infinity b => Infinity (negb b)
  | Fin q => Fin (Qred (- q))
  end.

(** Truthiness of a string: every string but the empty one. *)
Definition truthy (s : string) : bool :=
  match s with EmptyString => false | String _ _ => true end.

Definition code (c : ascii) : nat := nat_of_ascii c.

Definition is_digit (c : ascii) : bool :=
  (48 <=? code c)%nat && (code c <=? 57)%nat.

Definition digit_value (c : ascii) : Z := Z.of_nat (code c) - 48.

(** StrWhiteSpaceChar, on the ASCII range: TAB, LF, VT, FF, CR, SP. *)
Definition is_white (c : ascii) : bool :=
  ((9 <=? code c)%nat && (code c <=? 13)%nat) || (code c =? 32)%nat.

Fixpoint skip_white (s : string) : string :=
  match s with
  | String c r => if is_white c then skip_white r else s
  | EmptyString => s
  end.

Definition trim (s : string) : string :=
  String.rev (skip_white (String.rev (skip_white s))).

(** Longest prefix of decimal digits, and what follows it. *)
Fixpoint span_digits (s : string) : string * string :=
  match s with
  | String c r =>
      if is_digit c then let '(d, t) := span_digits r in (String c d, t)
      else (EmptyString, s)
  | EmptyString => (EmptyString, EmptyString)
  end.

Fixpoint digits_value_from (acc : Z) (s : string) : Z :=
  match s with
  | String c r => digits_value_from (10 * acc + digit_value c) r
  | EmptyString => acc
  end.

Definition digits_value (s : string) : Z := digits_value_from 0 s.

Definition split_sign (s : string) : bool * string :=
  match s with
  | String "-" r => (true, r)
  | String "+" r => (false, r)
  | _ => (false, s)
  end.

Definition signed (neg : bool) (z : Z) : Z := if neg then - z else z.

(** The binary64 number nearest to the natural number [n], the one with
    the even significand on a tie; [None] when it is beyond the range.  A
    number below 2^53 is its own; a larger one keeps its 53 leading bits,
    rounded. *)
Definition nearest_binary64 (n : Z) : option Z :=
  if n <? 2 ^ 53 then Some n
  else
    let e := Z.log2 n - 52 in
    let q := Z.shiftr n e in
    let r := n - Z.shiftl q e in
    let half := 2 ^ (e - 1) in
    let m := if (half <? r) || ((r =? half) && Z.odd q) then q + 1 else q in
    let v := Z.shiftl m e in
    if v <? 2 ^ 1024 then Some v else None.

(** The [number] an integer becomes. *)
Definition of_integer (z : Z) : Num :=
  match nearest_binary64 (Z.abs z) with
  | Some v => Fin (inject_Z (if z <? 0 then - v else v))
  | None => Infinity (z <? 0)
  end.

(** [parseInt(s, 10)]: leading white space, an optional sign, then the
    longest run of decimal digits; [NaN] when that run is empty, and
    otherwise the number nearest to the integer the run denotes. *)
Definition parseInt (s : string) : Num :=
  let '(neg, r) := split_sign (skip_white s) in
  let '(ds, _) := span_digits r in
  match ds with
  | EmptyString => NaN
  | _ => of_integer (signed neg (digits_value ds))
  end.

Fixpoint strip_prefix (p s : string) : option string :=
  match p, s with
  | EmptyString, _ => Some s
  | String a p', String b s' =>
      if Ascii.eqb a b then strip_prefix p' s' else None
  | String _ _, EmptyString => None
  end.

(** ExponentPart: [e] or [E], an optional sign, at least one digit.  When
    the digits are missing nothing is consumed. *)
Definition scan_exponent (r : string) : Z * string :=
  match r with
  | String c r1 =>
      if Ascii.eqb c "e" || Ascii.eqb c "E" then
        let '(neg, r2) := split_sign r1 in
        let '(ds, r3) := span_digits r2 in
        match ds with
        | EmptyString => (0, r)
        | _ => (signed neg (digits_value ds), r3)
        end
      else (0, r)
  | EmptyString => (0, r)
  end.

Definition scale10 (m e : Z) : Q := Qred (inject_Z m * Qpower (inject_Z 10) e).

(** Longest prefix that is a StrUnsignedDecimalLiteral. *)
Definition scan_unsigned (s : string) : option (Num * string) :=
  match strip_prefix "Infinity" s with
  | Some r => Some (Infinity false, r)
  | None =>
      let '(ip, r1) := span_digits s in
      match r1 with
      | String "." r2 =>
          let '(fp, r3) := span_digits r2 in
          if negb (truthy ip) && negb (truthy fp) then None
          else
            let '(e, r4) := scan_exponent r3 in
            Some (Fin (scale10 (digits_value (ip +:+ fp))
                               (e - Z.of_nat (String.length fp))), r4)
      | _ =>
          if truthy ip then
            let '(e, r4) := scan_exponent r1 in
            Some (Fin (scale10 (digits_value ip) e), r4)
          else None
      end
  end.

(** Longest prefix that is a StrDecimalLiteral. *)
Definition scan_decimal (s : string) : option (Num * string) :=
  let '(neg, r) := split_sign s in
  match scan_unsigned r with
  | Some (v, rest) => Some (if neg then negate v else v, rest)
  | None => None
  end.

Definition parseFloat (s : string) : Num :=
  match scan_decimal (skip_white s) with
  | Some (v, _) => v
  | None => NaN
  end.

(** Digits of the radixes of NonDecimalIntegerLiteral. *)
Definition radix_digit (radix : Z) (c : ascii) : option Z :=
  let n := Z.of_nat (code c) in
  let v := if (48 <=? n) && (n <=? 57) then Some (n - 48)
           else if (97 <=? n) && (n <=? 102) then Some (n - 87)
           else if (65 <=? n) && (n <=? 70) then Some (n - 55)
           else None in
  match v with
  | Some d => if d <? radix then Some d else None
  | None => None
  end.

Fixpoint radix_value_from (radix acc : Z) (s : string) : option Z :=
  match s with
  | String c r =>
      match radix_digit radix c with
      | Some d => radix_value_from radix (radix * acc + d) r
      | None => None
      end
  | EmptyString => Some acc
  end.

Definition non_decimal_literal (s : string) : option Z :=
  match s with
  | String "0" (String p (String c r)) =>
      let digits := String c r in
      if Ascii.eqb p "x" || Ascii.eqb p "X" then radix_value_from 16 0 digits
      else if Ascii.eqb p "o" || Ascii.eqb p "O" then radix_value_from 8 0 digits
      else if Ascii.eqb p "b" || Ascii.eqb p "B" then radix_value_from 2 0 digits
      else None
  | _ => None
  end.

(** [Number(s)] on a string (StringToNumber): white space is trimmed on
    both sides, the empty string is [0], and the whole of what is left
    must be one numeric literal. *)
Definition Number (s : string) : Num :=
  let t := trim s in
  match t with
  | EmptyString => Fin 0
  | _ =>
      match non_decimal_literal t with
      | Some z => Fin (inject_Z z)
      | None =>
          match scan_decimal t with
          | Some (v, EmptyString) => v
          | _ => NaN
          end
      end
  end.

(** The integer [n] for which [n - q] is as close to zero as possible, the
    larger one on a tie ([0 <= q]). *)
Definition round_half_up (q : Q) : Z :=
  (2 * Qnum q + Z.pos (Qden q)) / (2 * Z.pos (Qden q)).

Definition pow10 (f : nat) : Z := 10 ^ Z.of_nat f.

Definition zeros (n : nat) : string := String.concat "" (replicate n "0").

(** Split the digit string [m] before its last [f] characters. *)
Definition split_last (f : nat) (m : string) : string * string :=
  let k := String.length m in
  (String.substring 0 (k - f) m, String.substring (k - f) f m).

(** Number.prototype.toFixed.  [finiteToString] is Number::toString on a
    finite number; it produces the shortest digits that read back as the
    same binary64 number and is left to the engine. *)
Definition toFixed (finiteToString : Q -> string) (f : nat) (x : Num) : string :=
  match x with
  | NaN => "NaN"
  | Infinity false => "Infinity"
  | Infinity true => "-Infinity"
  | Fin q =>
      let s := if (Qnum q <? 0) then "-" else "" in
      let a := Qabs q in
      if Qle_bool (inject_Z (10 ^ 21)) a then s +:+ finiteToString a
      else
        let n := round_half_up (a * inject_Z (pow10 f)) in
        let m := pretty (Z.to_N n) in
        match f with
        | O => s +:+ m
        | _ =>
            let k := String.length m in
            let m' := if (k <=? f)%nat then zeros (f + 1 - k) +:+ m else m in
            let '(ip, fp) := split_last f m' in
            s +:+ ip +:+ "." +:+ fp
        end
  end.

(** Number.prototype.toString. *)
Definition toString (finiteToString : Q -> string) (x : Num) : string :=
  match x with
  | NaN => "NaN"
  | Infinity false => "Infinity"
  | Infinity true => "-Infinity"
  | Fin q => finiteToString q
  end.

End JS.

(* ===================================================================== *)
(** ** src/domain/models.ts *)
(* ===================================================================== *)

Module Domain.

Inductive WeightUnit : Type := LB | KG.
Inductive DimensionUnit : Type := IN | CM.
Inductive ServiceLevel : Type := GROUND | EXPRESS | STANDARD.

Definition WeightUnit_code (u : WeightUnit) : string :=
  match u with LB => "LB" | KG => "KG" end.

Definition DimensionUnit_code (u : DimensionUnit) : string :=
  match u with IN => "IN" | CM => "CM" end.

Record Money : Type := mkMoney {
  amount : JS.Num;
  currency : string
}.

Record Weight : Type := mkWeight {
  weight_value : JS.Num;
  weight_unit : WeightUnit
}.

Record Dimensions : Type := mkDimensions {
  dim_length : JS.Num;
  dim_width : JS.Num;
  dim_height : JS.Num;
  dim_unit : DimensionUnit
}.

Record Address : Type := mkAddress {
  addressLines : list string;
  city : string;
  stateProvinceCode : string;
  postalCode : string;
  countryCode : string
}.

Record Contact : Type := mkContact { name : string }.

Record Package : Type := mkPackage {
  weight : Weight;
  dimensions : option Dimensions
}.

Record RateRequest : Type := mkRateRequest {
  origin : Address;
  destination : Address;
  shipper : Contact;
  packages : list Package;
  serviceLevel : option ServiceLevel
}.

Record BillingWeight : Type := mkBillingWeight {
  bw_value : JS.Num;
  bw_unit : string
}.

(** The quote object as the mapper builds it. *)
Record RateQuote : Type := mkRateQuote {
  quote_serviceLevel : string;
  serviceName : string;
  carrierServiceCode : string;
  totalCost : Money;
  transportationCost : option Money;
  serviceOptionsCost : option Money;
  billingWeight : option BillingWeight;
  businessDaysInTransit : option JS.Num;
  warnings : option (list string)
}.

Record ResponseStatus : Type := mkResponseStatus {
  Code : string;
  Description : string
}.

Record RateResponse : Type := mkRateResponse {
  Response_ResponseStatus : ResponseStatus;
  RatedShipment : list RateQuote
}.

(** One issue of a failed schema parse: the path of the offending field
    and zod's issue code (the message text is zod's own and is not
    modelled). *)
Record ValidationIssue : Type := mkIssue {
  issue_path : string;
  issue_code : string
}.

Definition positive_num (x : JS.Num) : bool :=
  match x with
  | JS.Fin q => 0 <? Qnum q
  | JS.Infinity false => true
  | _ => false
  end.

(** [z.number()] rejects [NaN] and the infinities. *)
Definition finite_num (x : JS.Num) : bool :=
  match x with JS.Fin _ => true | _ => false end.

Definition at_most (bound : Z) (x : JS.Num) : bool :=
  match x with
  | JS.Fin q => Qle_bool q (inject_Z bound)
  | JS.Infinity true => true
  | _ => false
  end.

Definition check (ok : bool) (path code : string) : list ValidationIssue :=
  if ok then [] else [mkIssue path code].

(** [z.number().positive()] *)
Definition check_positive (path : string) (x : JS.Num) : list ValidationIssue :=
  if finite_num x then check (positive_num x) path "too_small"
  else [mkIssue path "invalid_type"].

Definition AddressSchema (path : string) (a : Address) : list ValidationIssue :=
  check (1 <=? length (addressLines a))%nat (path +:+ ".addressLines") "too_small"
  ++ check (length (addressLines a) <=? 2)%nat (path +:+ ".addressLines") "too_big"
  ++ check (String.length (countryCode a) =? 2)%nat (path +:+ ".countryCode")
        (if (String.length (countryCode a) <? 2)%nat then "too_small" else "too_big").

Definition DimensionsSchema (path : string) (d : Dimensions) : list ValidationIssue :=
  check_positive (path +:+ ".length") (dim_length d)
  ++ check_positive (path +:+ ".width") (dim_width d)
  ++ check_positive (path +:+ ".height") (dim_height d).

Definition WeightSchema (path : string) (w : Weight) : list ValidationIssue :=
  if finite_num (weight_value w) then
    check (positive_num (weight_value w)) (path +:+ ".value") "too_small"
    ++ check (at_most 150 (weight_value w)) (path +:+ ".value") "too_big"
  else [mkIssue (path +:+ ".value") "invalid_type"].

Definition PackageSchema (path : string) (p : Package) : list ValidationIssue :=
  WeightSchema (path +:+ ".weight") (weight p)
  ++ match dimensions p with
     | Some d => DimensionsSchema (path +:+ ".dimensions") d
     | None => []
     end.

Fixpoint PackagesSchema (i : nat) (ps : list Package) : list ValidationIssue :=
  match ps with
  | [] => []
  | p :: rest =>
      PackageSchema ("packages." +:+ pretty i) p ++ PackagesSchema (S i) rest
  end.

(** The issues [RateRequestSchema.parse] reports on a request of type
    [RateRequest] (the enumerations and the presence of the required
    fields are already fixed by the type). *)
Definition RateRequestSchema (r : RateRequest) : list ValidationIssue :=
  AddressSchema "origin" (origin r)
  ++ AddressSchema "destination" (destination r)
  ++ check (1 <=? length (packages r))%nat "packages" "too_small"
  ++ PackagesSchema 0 (packages r).

(** [validateRateRequest]: the parsed request, or the ZodError issues. *)
Definition validateRateRequest (r : RateRequest) : list ValidationIssue + RateRequest :=
  match RateRequestSchema r with
  | [] => inr r
  | issues => inl issues
  end.

End Domain.

(* ===================================================================== *)
(** ** src/carriers/ups/types.ts *)
(* ===================================================================== *)

Module Wire.

Record UPSTokenResponse : Type := mkTokenResponse {
  access_token : string;
  token_type : string;
  expires_in : Z;
  issued_at : string;
  token_status : string
}.

Record UPSAlert : Type := mkAlert {
  alert_Code : string;
  alert_Description : string
}.

Record UPSCharges : Type := mkCharges {
  CurrencyCode : string;
  MonetaryValue : string
}.

Record UPSService : Type := mkService {
  service_Code : string;
  service_Description : option string
}.

Record UPSBillingWeight : Type := mkUPSBillingWeight {
  bw_UnitOfMeasurement_Code : string;
  bw_UnitOfMeasurement_Description : option string;
  bw_Weight : string
}.

Record UPSGuaranteedDelivery : Type := mkGuaranteed {
  BusinessDaysInTransit : option string;
  DeliveryByTime : option string
}.

Record UPSRatedPackage : Type := mkRatedPackage {
  rp_Weight : string;
  rp_BillingWeight : option UPSBillingWeight;
  rp_TransportationCharges : option UPSCharges;
  rp_TotalCharges : option UPSCharges
}.

Record UPSRatedShipment : Type := mkRatedShipment {
  Service : UPSService;
  BillingWeight : option UPSBillingWeight;
  TransportationCharges : option UPSCharges;
  ServiceOptionsCharges : option UPSCharges;
  TotalCharges : UPSCharges;
  GuaranteedDelivery : option UPSGuaranteedDelivery;
  RatedPackage : option (list UPSRatedPackage);
  RatedShipmentAlert : option (list UPSAlert);
  NegotiatedRateCharges : option UPSCharges
}.

Record UPSResponseBlock : Type := mkResponseBlock {
  ResponseStatus_Code : string;
  ResponseStatus_Description : string;
  TransactionReference_CustomerContext : option string;
  Alert : option (list UPSAlert)
}.

(** [UPSRateResponse]: the body the mappers are typed for. *)
Record UPSRateResponse : Type := mkUPSRateResponse {
  Response : option UPSResponseBlock;
  RatedShipment : list UPSRatedShipment
}.

(** A JSON value that is not an array, as far as the sources look at one:
    whether it is [null], and whether it is truthy. *)
Inductive NonList : Type :=
| JsonNull
| JsonBoolean (b : bool)
| JsonNumber (n : Q)
| JsonString (s : string)
| JsonObject.

(** [RateResponse.RatedShipment] as it arrives: the list the type
    promises (its entries of the promised type), or any other value. *)
Inductive RatedShipmentValue : Type :=
| ShipmentList (shipments : list UPSRatedShipment)
| NotAList (value : NonList).

(** Truthiness: an array and an object are truthy; [null], [false], 0 and
    the empty string are not. *)
Definition truthy (v : RatedShipmentValue) : bool :=
  match v with
  | ShipmentList _ => true
  | NotAList JsonNull => false
  | NotAList (JsonBoolean b) => b
  | NotAList (JsonNumber n) => negb (Qnum n =? 0)
  | NotAList (JsonString s) => JS.truthy s
  | NotAList JsonObject => true
  end.

(** What the rating endpoint may really send back as [response.data]:
    nothing, a non-JSON text, or an object; its [RateResponse] may be
    missing (or be no object, which comes to the same: it has no
    [RatedShipment] then), and so may [RateResponse.RatedShipment], which
    when present need not be a list. *)
Record RateResponseBlock : Type := mkRateResponseBlock {
  body_Response : option UPSResponseBlock;
  body_RatedShipment : option RatedShipmentValue
}.

Inductive RatingBody : Type :=
| BodyAbsent
| BodyText (text : string)
| BodyObject (RateResponse : option RateResponseBlock).

Record UPSAddressed : Type := mkAddressed {
  party_Name : string;
  party_ShipperNumber : option string;
  party_Address : Domain.Address
}.

Record UPSDimensions : Type := mkUPSDimensions {
  dims_UnitOfMeasurement_Code : string;
  Length : string;
  Width : string;
  Height : string
}.

Record UPSPackage : Type := mkUPSPackage {
  PackagingType_Code : string;
  PackagingType_Description : string;
  PackageWeight_UnitOfMeasurement_Code : string;
  PackageWeight_Weight : string;
  Dimensions : option UPSDimensions
}.

Record UPSRateRequest : Type := mkUPSRateRequest {
  RequestOption : string;
  TransactionReference : option string;   (* { CustomerContext } *)
  Shipper : UPSAddressed;
  ShipTo : UPSAddressed;
  ShipFrom : UPSAddressed;
  Package : list UPSPackage;
  NegotiatedRatesIndicator : option string
}.

End Wire.

(* ===================================================================== *)
(** ** src/errors/index.ts *)
(* ===================================================================== *)

Module Errors.

(** The part of an AxiosError the sources read: its [code], and the
    status and headers of its [response] when there is one. *)
Record AxiosResponse : Type := mkAxiosResponse {
  status : Z;
  headers : gmap string string
}.

Record AxiosError : Type := mkAxiosError {
  axios_code : option string;
  axios_response : option AxiosResponse
}.

(** An [Error] kept as [originalError]: the AxiosError itself, or any other
    error by its message. *)
Inductive Cause : Type :=
| CauseAxios (e : AxiosError)
| CauseError (message : string).

(** The subclasses of [CarrierServiceError], one constructor each, with
    the fields their constructors set ([timestamp] and the stack are left
    out). *)
Inductive CarrierServiceError : Type :=
| ValidationError (message : string) (issues : list Domain.ValidationIssue)
    (carrier : option string)
| AuthenticationError (message : string) (carrier : option string)
    (httpStatus : option Z) (originalError : option Cause)
| InvalidCredentialsError (carrier : string)
| TimeoutError (message : string) (timeoutMs : Z) (carrier : option string)
    (requestId : option string)
| NetworkError (message : string) (carrier : option string)
    (originalError : option Cause)
| CarrierApiError (message : string) (httpStatus : Z) (carrier : option string)
    (requestId : option string) (carrierErrorCode carrierErrorMessage : option string)
    (originalError : option Cause)
| RateLimitError (carrier : string) (retryAfterSeconds : option JS.Num)
    (requestId : option string)
| ResponseParsingError (message : string) (carrier : option string)
    (requestId : option string) (responseBody : Wire.RatingBody)
    (originalError : option Cause)
| ConfigurationError (message : string) (carrier : option string)
    (missingFields : option (list string)).

(** [readonly code] *)
Definition code (e : CarrierServiceError) : string :=
  match e with
  | ValidationError _ _ _ => "VALIDATION_ERROR"
  | AuthenticationError _ _ _ _ => "AUTHENTICATION_ERROR"
  | InvalidCredentialsError _ => "INVALID_CREDENTIALS"
  | TimeoutError _ _ _ _ => "TIMEOUT_ERROR"
  | NetworkError _ _ _ => "NETWORK_ERROR"
  | CarrierApiError _ _ _ _ _ _ _ => "CARRIER_API_ERROR"
  | RateLimitError _ _ _ => "RATE_LIMIT_ERROR"
  | ResponseParsingError _ _ _ _ _ => "RESPONSE_PARSING_ERROR"
  | ConfigurationError _ _ _ => "CONFIGURATION_ERROR"
  end.

(** [readonly isRetryable]; for [CarrierApiError] the constructor computes
    [httpStatus >= 500 || httpStatus === 429]. *)
Definition isRetryable (e : CarrierServiceError) : bool :=
  match e with
  | ValidationError _ _ _ => false
  | AuthenticationError _ _ _ _ => false
  | InvalidCredentialsError _ => false
  | TimeoutError _ _ _ _ => true
  | NetworkError _ _ _ => true
  | CarrierApiError _ httpStatus _ _ _ _ _ => (500 <=? httpStatus) || (httpStatus =? 429)
  | RateLimitError _ _ _ => true
  | ResponseParsingError _ _ _ _ _ => false
  | ConfigurationError _ _ _ => false
  end.

(** [message], as the constructors build it. *)
Definition message (e : CarrierServiceError) : string :=
  match e with
  | ValidationError m _ _ => m
  | AuthenticationError m _ _ _ => m
  | InvalidCredentialsError c => "Invalid or missing credentials for " +:+ c
  | TimeoutError m _ _ _ => m
  | NetworkError m _ _ => m
  | CarrierApiError m _ _ _ _ _ _ => m
  | RateLimitError c _ _ => "Rate limit exceeded for " +:+ c
  | ResponseParsingError m _ _ _ _ => m
  | ConfigurationError m _ _ => m
  end.

Definition carrier (e : CarrierServiceError) : option string :=
  match e with
  | ValidationError _ _ c => c
  | AuthenticationError _ c _ _ => c
  | InvalidCredentialsError c => Some c
  | TimeoutError _ _ c _ => c
  | NetworkError _ c _ => c
  | CarrierApiError _ _ c _ _ _ _ => c
  | RateLimitError c _ _ => Some c
  | ResponseParsingError _ c _ _ _ => c
  | ConfigurationError _ c _ => c
  end.

(** [error instanceof AuthenticationError] ([InvalidCredentialsError]
    extends it). *)
Definition instanceof_AuthenticationError (e : CarrierServiceError) : bool :=
  match e with
  | AuthenticationError _ _ _ _ | InvalidCredentialsError _ => true
  | _ => false
  end.

Definition instanceof_ResponseParsingError (e : CarrierServiceError) : bool :=
  match e with ResponseParsingError _ _ _ _ _ => true | _ => false end.

(** What a rejected call may carry: one of the classified errors, an
    AxiosError, or any other thrown value (a [TypeError], say). *)
Inductive Thrown : Type :=
| ThrownService (e : CarrierServiceError)
| ThrownAxios (e : AxiosError)
| ThrownOther (message : string).

(** [error instanceof Error ? error : new Error(String(error))] *)
Definition as_cause (t : Thrown) : Cause :=
  match t with
  | ThrownService e => CauseError (message e)
  | ThrownAxios e => CauseAxios e
  | ThrownOther m => CauseError m
  end.

Definition code_is (e : AxiosError) (c : string) : bool :=
  match axios_code e with
  | Some c' => String.eqb c' c
  | None => false
  end.

End Errors.

(* ===================================================================== *)
(** ** src/config (the [UPSConfig] type) and Buffer's base64 *)
(* ===================================================================== *)

Module Config.

Record UPSConfig : Type := mkUPSConfig {
  carrierId : string;
  carrierName : string;
  clientId : string;
  clientSecret : string;
  accountNumber : string;
  baseUrl : string;
  tokenUrl : string;
  timeoutMs : Z;
  useSandbox : bool;
  supportedCountries : list string
}.

End Config.

Module Base64.

Definition alphabet : string :=
  "ABCDEFGHIJKLMNOPQRSTUVWXYZabcdefghijklmnopqrstuvwxyz0123456789+/".

Definition char (n : nat) : ascii :=
  match String.get n alphabet with Some c => c | None => "="%char end.

Fixpoint encode_bytes (bs : list nat) : string :=
  match bs with
  | a :: b :: c :: rest =>
      String (char (a / 4))
        (String (char ((a mod 4) * 16 + b / 16))
           (String (char ((b mod 16) * 4 + c / 64))
              (String (char (c mod 64)) (encode_bytes rest))))
  | [a; b] =>
      String (char (a / 4))
        (String (char ((a mod 4) * 16 + b / 16))
           (String (char ((b mod 16) * 4)) "="))
  | [a] =>
      String (char (a / 4)) (String (char ((a mod 4) * 16)) "==")
  | [] => ""
  end%nat.

(** [Buffer.from(s).toString("base64")] *)
Definition encode (s : string) : string :=
  encode_bytes (map nat_of_ascii (list_ascii_of_string s)).

End Base64.

(* ===================================================================== *)
(** ** src/carriers/ups/auth.ts *)
(* ===================================================================== *)

Module Auth.
Import Errors Config.

Record CachedToken : Type := mkCachedToken {
  accessToken : string;
  expiresAt : Z;            (* [Date], as milliseconds since the epoch *)
  tokenType : string
}.

Definition TOKEN_EXPIRY_BUFFER_MS : Z := 5 * 60 * 1000.

(** State of a [Promise<string>] returned by [refreshToken]. *)
Inductive PromiseState : Type :=
| Pending
| Fulfilled (token : string)
| Rejected (error : CarrierServiceError).

(** A POST put on the wire by [refreshToken]. *)
Record TokenRequest : Type := mkTokenRequest {
  req_url : string;
  req_body : string;
  req_ContentType : string;
  req_Authorization : string
}.

(** What [httpClient.post] to the token URL settles with: a response whose
    [data] is the token document (or is missing), or a rejection. *)
Inductive TokenReply : Type :=
| TokenOk (data : option Wire.UPSTokenResponse)
| TokenFail (thrown : Thrown).

(** A [UPSAuthManager] with the two things its methods act on besides its
    own fields: the promises [refreshToken] has returned (a promise is
    named by its position in [promises]) and the token requests sent. *)
Record UPSAuthManager : Type := mkAuth {
  config : UPSConfig;
  cachedToken : option CachedToken;
  tokenRefreshPromise : option nat;
  promises : list PromiseState;
  tokenRequests : list TokenRequest
}.

Definition create (cfg : UPSConfig) : UPSAuthManager :=
  mkAuth cfg None None [] [].

Definition set_cachedToken (c : option CachedToken) (m : UPSAuthManager) :=
  mkAuth (config m) c (tokenRefreshPromise m) (promises m) (tokenRequests m).

Definition set_tokenRefreshPromise (p : option nat) (m : UPSAuthManager) :=
  mkAuth (config m) (cachedToken m) p (promises m) (tokenRequests m).

Definition set_promises (ps : list PromiseState) (m : UPSAuthManager) :=
  mkAuth (config m) (cachedToken m) (tokenRefreshPromise m) ps (tokenRequests m).

Definition send (r : TokenRequest) (m : UPSAuthManager) :=
  mkAuth (config m) (cachedToken m) (tokenRefreshPromise m) (promises m)
         (tokenRequests m ++ [r]).

(** [isTokenValid], with [now] the value of [new Date()]. *)
Definition isTokenValid (now : Z) (m : UPSAuthManager) : bool :=
  match cachedToken m with
  | None => false
  | Some c =>
      let bufferTime := expiresAt c - TOKEN_EXPIRY_BUFFER_MS in
      now <? bufferTime
  end.

(** [handleAxiosError] of the auth manager. *)
Definition handleAxiosError (cfg : UPSConfig) (error : AxiosError) : CarrierServiceError :=
  if code_is error "ECONNABORTED" || code_is error "ETIMEDOUT" then
    TimeoutError "Token request timed out" (timeoutMs cfg) (Some "UPS") None
  else if code_is error "ENOTFOUND" || code_is error "ECONNREFUSED" then
    NetworkError "Failed to connect to UPS authentication server" (Some "UPS")
                 (Some (CauseAxios error))
  else
    match axios_response error with
    | Some response =>
        let status := status response in
        if (status =? 401) || (status =? 403) then InvalidCredentialsError "UPS"
        else
          AuthenticationError
            ("UPS authentication failed with status " +:+ pretty status)
            (Some "UPS") (Some status) (Some (CauseAxios error))
    | None =>
        NetworkError "Network error during UPS authentication" (Some "UPS")
                     (Some (CauseAxios error))
    end.

(** The [catch] block of [refreshToken]. *)
Definition refreshToken_catch (cfg : UPSConfig) (error : Thrown) : CarrierServiceError :=
  match error with
  | ThrownService e =>
      if instanceof_AuthenticationError e then e
      else AuthenticationError "Failed to obtain UPS access token" (Some "UPS") None
                               (Some (as_cause error))
  | ThrownAxios e => handleAxiosError cfg e
  | ThrownOther _ =>
      AuthenticationError "Failed to obtain UPS access token" (Some "UPS") None
                          (Some (as_cause error))
  end.

Definition basic_request (cfg : UPSConfig) : TokenRequest :=
  mkTokenRequest (tokenUrl cfg) "grant_type=client_credentials"
    "application/x-www-form-urlencoded"
    ("Basic " +:+ Base64.encode (clientId cfg +:+ ":" +:+ clientSecret cfg)).

(** [refreshToken] up to its first suspension: the credentials check, then
    the POST.  It returns the promise of the call: already rejected when
    the check throws, pending on the network otherwise. *)
Definition refreshToken (m : UPSAuthManager) : nat * UPSAuthManager :=
  let p := length (promises m) in
  if negb (JS.truthy (clientId (config m))) || negb (JS.truthy (clientSecret (config m)))
  then (p, set_promises (promises m ++ [Rejected (InvalidCredentialsError "UPS")]) m)
  else (p, send (basic_request (config m)) (set_promises (promises m ++ [Pending]) m)).

(** [refreshToken] from the moment its POST settles with [reply]; [now] is
    the value of [Date.now()].  [p] is the promise of that call. *)
Definition refreshToken_settle (now : Z) (p : nat) (reply : TokenReply)
    (m : UPSAuthManager) : UPSAuthManager :=
  match promises m !! p with
  | Some Pending =>
      match reply with
      | TokenOk (Some tokenData) =>
          let c := mkCachedToken (Wire.access_token tokenData)
                                 (now + Wire.expires_in tokenData * 1000)
                                 (Wire.token_type tokenData) in
          set_promises (<[p := Fulfilled (accessToken c)]> (promises m))
                       (set_cachedToken (Some c) m)
      | TokenOk None =>
          set_promises
            (<[p := Rejected (refreshToken_catch (config m)
                 (ThrownOther "Cannot read properties of undefined (reading 'access_token')"))]>
               (promises m)) m
      | TokenFail t =>
          set_promises (<[p := Rejected (refreshToken_catch (config m) t)]> (promises m)) m
      end
  | _ => m
  end.

(** What a caller of [getAccessToken] holds when the call returns:
    the cached token, the refresh promise of somebody else, or the
    promise of the refresh it has started itself (it then awaits it and
    runs the [finally] block). *)
Inductive Handle : Type :=
| Cached (token : string)
| Joined (p : nat)
| Started (p : nat).

(** [getAccessToken] up to its first suspension. *)
Definition getAccessToken (now : Z) (m : UPSAuthManager) : Handle * UPSAuthManager :=
  if isTokenValid now m then
    match cachedToken m with
    | Some c => (Cached (accessToken c), m)
    | None => (Cached "", m)   (* unreachable: a valid token is a cached one *)
    end
  else
    match tokenRefreshPromise m with
    | Some p => (Joined p, m)
    | None =>
        let '(p, m') := refreshToken m in
        (Started p, set_tokenRefreshPromise (Some p) m')
    end.

(** The [finally] block of [getAccessToken], run by the caller that
    started the refresh once its promise has settled. *)
Definition getAccessToken_finally (m : UPSAuthManager) : UPSAuthManager :=
  set_tokenRefreshPromise None m.

Definition forceRefresh (now : Z) (m : UPSAuthManager) : Handle * UPSAuthManager :=
  getAccessToken now (set_cachedToken None m).

Definition clearCache (m : UPSAuthManager) : UPSAuthManager :=
  set_tokenRefreshPromise None (set_cachedToken None m).

Record TokenState : Type := mkTokenState {
  hasToken : bool;
  state_expiresAt : option Z;
  isValid : bool
}.

Definition getTokenState (now : Z) (m : UPSAuthManager) : TokenState :=
  mkTokenState (bool_decide (cachedToken m <> None))
               (expiresAt <$> cachedToken m)
               (isTokenValid now m).

(** What the promise a handle stands for has settled with, if it has. *)
Definition outcome (m : UPSAuthManager) (h : Handle) : option (CarrierServiceError + string) :=
  match h with
  | Cached t => Some (inr t)
  | Joined p | Started p =>
      match promises m !! p with
      | Some (Fulfilled t) => Some (inr t)
      | Some (Rejected e) => Some (inl e)
      | _ => None
      end
  end.

(** *** Interleavings.  The manager runs on one thread; between two
    suspension points one of the following happens. *)
Inductive Event : Type :=
| CallGetAccessToken (now : Z)
| CallForceRefresh (now : Z)
| TokenReplyArrives (now : Z) (p : nat) (reply : TokenReply)
| FinallyRuns (p : nat).

Definition settled (m : UPSAuthManager) (p : nat) : bool :=
  match promises m !! p with
  | Some Pending | None => false
  | Some _ => true
  end.

(** One event; a call also yields the handle its caller gets.  The
    [finally] block of the caller that started [p] runs only after [p]
    has settled. *)
Definition step (e : Event) (m : UPSAuthManager) : option Handle * UPSAuthManager :=
  match e with
  | CallGetAccessToken now => let '(h, m') := getAccessToken now m in (Some h, m')
  | CallForceRefresh now => let '(h, m') := forceRefresh now m in (Some h, m')
  | TokenReplyArrives now p reply => (None, refreshToken_settle now p reply m)
  | FinallyRuns p => (None, if settled m p then getAccessToken_finally m else m)
  end.

Fixpoint run (es : list Event) (m : UPSAuthManager) : list Handle * UPSAuthManager :=
  match es with
  | [] => ([], m)
  | e :: rest =>
      let '(h, m1) := step e m in
      let '(hs, m2) := run rest m1 in
      (match h with Some h => h :: hs | None => hs end, m2)
  end.

End Auth.

(* ===================================================================== *)
(** ** src/carriers/ups/mapper.ts *)
(* ===================================================================== *)

Module Mapper.
Import Domain.

(** [a || b] on an optional string. *)
Definition or_else (a : option string) (b : string) : string :=
  match a with
  | Some s => if JS.truthy s then s else b
  | None => b
  end.

Section WithEngine.

(** Number::toString on finite numbers, the engine's. *)
Variable finiteToString : Q -> string.

Definition toUPSPackage (pkg : Package) : Wire.UPSPackage :=
  Wire.mkUPSPackage "02" "YOUR_PACKAGING"
    (WeightUnit_code (weight_unit (weight pkg)))
    (JS.toFixed finiteToString 1 (weight_value (weight pkg)))
    (match dimensions pkg with
     | Some d =>
         Some (Wire.mkUPSDimensions (DimensionUnit_code (dim_unit d))
                 (JS.toString finiteToString (dim_length d))
                 (JS.toString finiteToString (dim_width d))
                 (JS.toString finiteToString (dim_height d)))
     | None => None
     end).

(** Map domain RateRequest to UPS DTO *)
Definition toUPSRateRequest (request : RateRequest) (shipperNumber : string)
    (customerContext : option string) : Wire.UPSRateRequest :=
  Wire.mkUPSRateRequest
    (match serviceLevel request with Some _ => "Rate" | None => "Shop" end)
    (match customerContext with
     | Some c => if JS.truthy c then Some c else None
     | None => None
     end)
    (Wire.mkAddressed (name (shipper request)) (Some shipperNumber) (origin request))
    (Wire.mkAddressed "Recipient" None (destination request))
    (Wire.mkAddressed (name (shipper request)) None (origin request))
    (map toUPSPackage (packages request))
    (Some "Y").

End WithEngine.

Definition toMoney (c : Wire.UPSCharges) : Money :=
  mkMoney (JS.parseFloat (Wire.MonetaryValue c)) (Wire.CurrencyCode c).

(** [x && !isNaN(Number(x)) ? parseInt(x, 10) : undefined] on
    [rated.GuaranteedDelivery?.BusinessDaysInTransit]. *)
Definition toBusinessDays (g : option Wire.UPSGuaranteedDelivery) : option JS.Num :=
  match g with
  | Some g =>
      match Wire.BusinessDaysInTransit g with
      | Some x =>
          if JS.truthy x && negb (JS.isNaN (JS.Number x))
          then Some (JS.parseInt x)
          else None
      | None => None
      end
  | None => None
  end.

Definition toQuote (rated : Wire.UPSRatedShipment) : RateQuote :=
  mkRateQuote
    (or_else (Wire.service_Description (Wire.Service rated)) "STANDARD")
    (or_else (Wire.service_Description (Wire.Service rated)) "UPS Service")
    (Wire.service_Code (Wire.Service rated))
    (toMoney (Wire.TotalCharges rated))
    (toMoney <$> Wire.TransportationCharges rated)
    (toMoney <$> Wire.ServiceOptionsCharges rated)
    ((fun b => mkBillingWeight (JS.parseFloat (Wire.bw_Weight b))
                               (Wire.bw_UnitOfMeasurement_Code b))
       <$> Wire.BillingWeight rated)
    (toBusinessDays (Wire.GuaranteedDelivery rated))
    (map Wire.alert_Description <$> Wire.RatedShipmentAlert rated).

(** Map UPS DTO response to normalized RateResponse *)
Definition fromUPSRateResponse (upsResponse : Wire.UPSRateResponse)
    (requestId : string) (originalRequest : option RateRequest) : RateResponse :=
  let ratedShipments := Wire.RatedShipment upsResponse in
  let rates := map toQuote ratedShipments in
  mkRateResponse (mkResponseStatus "1" "Success") rates.

(** [fromUPSRateResponse] on a body as it arrives ([upsResponse: any]):
    [ratedShipments.map(...)] throws a TypeError unless [RatedShipment] is
    a list. *)
Definition fromUPSRateResponse_any (upsResponse : Wire.RateResponseBlock)
    (requestId : string) (originalRequest : option RateRequest)
    : Errors.Thrown + RateResponse :=
  match Wire.body_RatedShipment upsResponse with
  | Some (Wire.ShipmentList shipments) =>
      inr (fromUPSRateResponse
             (Wire.mkUPSRateResponse (Wire.body_Response upsResponse) shipments)
             requestId originalRequest)
  | Some (Wire.NotAList Wire.JsonNull) =>
      inl (Errors.ThrownOther "Cannot read properties of null (reading 'map')")
  | Some (Wire.NotAList _) =>
      inl (Errors.ThrownOther "ratedShipments.map is not a function")
  | None =>
      inl (Errors.ThrownOther "Cannot read properties of undefined (reading 'map')")
  end.

End Mapper.

(* ===================================================================== *)
(** ** src/carriers/ups/service.ts *)
(* ===================================================================== *)

Module Service.
Import Errors Config Domain.

(** A POST put on the wire by [callRatingApi]. *)
Record RatingRequest : Type := mkRatingRequest {
  url : string;
  body : Wire.UPSRateRequest;
  ContentType : string;
  Authorization : string;
  transId : string;
  transactionSrc : string
}.

(** What [httpClient.post] to the rating URL settles with. *)
Inductive RatingReply : Type :=
| RatingOk (data : Wire.RatingBody)
| RatingFail (thrown : Thrown).

(** Everything outside the service: the two endpoints (each answers the
    n-th request put to it), the clock (the time at the n-th step of the
    run at which the time matters), the identifier [generateRequestId]
    draws and the engine's number printer. *)
Record World : Type := mkWorld {
  tokenEndpoint : nat -> Auth.TokenReply;
  ratingEndpoint : nat -> RatingReply;
  clock : nat -> Z;
  generateRequestId : string;
  finiteToString : Q -> string
}.

(** A [UPSRateService] with its auth manager, the rating requests sent and
    the number of timed steps made so far. *)
Record UPSRateService : Type := mkService {
  config : UPSConfig;
  authManager : Auth.UPSAuthManager;
  ratingRequests : list RatingRequest;
  ticks : nat
}.

Definition create (cfg : UPSConfig) : UPSRateService :=
  mkService cfg (Auth.create cfg) [] 0.

Definition set_authManager (m : Auth.UPSAuthManager) (s : UPSRateService) :=
  mkService (config s) m (ratingRequests s) (ticks s).

(** *** Asynchronous methods run to completion.  [None] stands for a call
    that stays suspended for ever; [Some (inl e)] for a rejection. *)
Definition Async (A : Type) : Type :=
  UPSRateService -> option (CarrierServiceError + A) * UPSRateService.

Definition ret {A} (a : A) : Async A := fun s => (Some (inr a), s).
Definition throw {A} (e : CarrierServiceError) : Async A := fun s => (Some (inl e), s).

Definition bind {A B} (c : Async A) (k : A -> Async B) : Async B :=
  fun s =>
    match c s with
    | (Some (inr a), s1) => k a s1
    | (Some (inl e), s1) => (Some (inl e), s1)
    | (None, s1) => (None, s1)
    end.

(** [try { c } catch (error) { handler error }] *)
Definition try_catch {A} (c : Async A) (handler : CarrierServiceError -> Async A) : Async A :=
  fun s =>
    match c s with
    | (Some (inl e), s1) => handler e s1
    | r => r
    end.

Notation "x <- c ;; k" := (bind c (fun x => k))
  (at level 100, c at next level, right associativity).

(** The time of the next step: what [new Date()] and [Date.now()] read
    during it. *)
Definition now (w : World) : Async Z :=
  fun s => (Some (inr (clock w (ticks s))),
            mkService (config s) (authManager s) (ratingRequests s) (S (ticks s))).

(** [await] on what [getAccessToken] returned.  If the promise is still
    pending its token request is the last one sent; the endpoint answers
    it, [refreshToken] finishes, and the caller that started the refresh
    runs its [finally] block. *)
Definition await (w : World) (h : Auth.Handle) : Async string :=
  match h with
  | Auth.Cached t => ret t
  | Auth.Joined p | Auth.Started p =>
      t <- now w ;;
      fun s =>
        let m := authManager s in
        let m1 := Auth.refreshToken_settle t p
                    (tokenEndpoint w (length (Auth.tokenRequests m) - 1)) m in
        let m2 := match h with
                  | Auth.Started _ => Auth.getAccessToken_finally m1
                  | _ => m1
                  end in
        (Auth.outcome m1 h, set_authManager m2 s)
  end.

(** [await this.authManager.getAccessToken()] *)
Definition getAccessToken (w : World) : Async string :=
  t <- now w ;;
  fun s =>
    let '(h, m) := Auth.getAccessToken t (authManager s) in
    await w h (set_authManager m s).

(** [await this.authManager.forceRefresh()] *)
Definition forceRefresh (w : World) : Async string :=
  t <- now w ;;
  fun s =>
    let '(h, m) := Auth.forceRefresh t (authManager s) in
    await w h (set_authManager m s).

(** [validateRequest] *)
Definition validateRequest (request : RateRequest) : Async RateRequest :=
  match validateRateRequest request with
  | inr r => ret r
  | inl issues => throw (ValidationError "Invalid rate request" issues (Some "UPS"))
  end.

(** [handleAxiosError] of the rate service. *)
Definition handleAxiosError (cfg : UPSConfig) (error : AxiosError) (requestId : string)
    : CarrierServiceError :=
  if code_is error "ECONNABORTED" || code_is error "ETIMEDOUT" then
    TimeoutError "Request timed out" (timeoutMs cfg) (Some (carrierId cfg)) (Some requestId)
  else if code_is error "ENOTFOUND" || code_is error "ECONNREFUSED"
          || code_is error "ECONNRESET" then
    NetworkError "Could not connect to API" (Some (carrierId cfg)) (Some (CauseAxios error))
  else
    match axios_response error with
    | Some response =>
        let status := status response in
        if status =? 429 then
          RateLimitError (carrierId cfg)
            (match headers response !! "retry-after" with
             | Some v => if JS.truthy v then Some (JS.parseInt v) else None
             | None => None
             end)
            (Some requestId)
        else
          CarrierApiError ("API error " +:+ pretty status) status
            (Some (carrierId cfg)) (Some requestId) None None (Some (CauseAxios error))
    | None =>
        NetworkError "Network error" (Some (carrierId cfg)) (Some (CauseAxios error))
    end.

(** The body, when [response.data?.RateResponse?.RatedShipment] is truthy. *)
Definition ratedShipments (data : Wire.RatingBody) : option Wire.RateResponseBlock :=
  match data with
  | Wire.BodyObject (Some rr) =>
      match Wire.body_RatedShipment rr with
      | Some v => if Wire.truthy v then Some rr else None
      | None => None
      end
  | _ => None
  end.

(** The [catch] block of [callRatingApi]. *)
Definition callRatingApi_catch (cfg : UPSConfig) (requestId : string) (error : Thrown)
    : CarrierServiceError :=
  match error with
  | ThrownService e =>
      if instanceof_ResponseParsingError e then e
      else NetworkError "Unexpected error calling UPS Rating API" (Some "UPS")
                        (Some (as_cause error))
  | ThrownAxios e => handleAxiosError cfg e requestId
  | ThrownOther _ =>
      NetworkError "Unexpected error calling UPS Rating API" (Some "UPS")
                   (Some (as_cause error))
  end.

Definition callRatingApi (w : World) (request : Wire.UPSRateRequest)
    (accessToken requestId : string) : Async Wire.RateResponseBlock :=
  fun s =>
    let sent := mkRatingRequest "/api/rating/v1/Rate" request "application/json"
                  ("Bearer " +:+ accessToken) requestId "carrier-integration-service" in
    let s1 := mkService (config s) (authManager s) (ratingRequests s ++ [sent])
                        (ticks s) in
    match ratingEndpoint w (length (ratingRequests s)) with
    | RatingOk data =>
        match ratedShipments data with
        | Some response => ret response s1
        | None =>
            throw (callRatingApi_catch (config s) requestId
                     (ThrownService
                        (ResponseParsingError "Invalid response structure from UPS Rating API"
                           (Some "UPS") (Some requestId) data None))) s1
        end
    | RatingFail t => throw (callRatingApi_catch (config s) requestId t) s1
    end.

Definition isAuthError (error : CarrierServiceError) : bool :=
  match error with
  | CarrierApiError _ httpStatus _ _ _ _ _ => (httpStatus =? 401) || (httpStatus =? 403)
  | _ => false
  end.

Definition simpleAddress (a : Address) : Address :=
  mkAddress (addressLines a) (city a) (stateProvinceCode a) (postalCode a) (countryCode a).

Definition simplePackage (pkg : Package) : Package :=
  mkPackage (mkWeight (weight_value (weight pkg)) (weight_unit (weight pkg)))
            ((fun d => mkDimensions (dim_length d) (dim_width d) (dim_height d) (dim_unit d))
               <$> dimensions pkg).

Definition simpleRequest (validatedRequest : RateRequest) : RateRequest :=
  mkRateRequest (simpleAddress (origin validatedRequest))
                (simpleAddress (destination validatedRequest))
                (mkContact (name (shipper validatedRequest)))
                (map simplePackage (packages validatedRequest))
                (serviceLevel validatedRequest).

(** What the caller of a method gets when its last step, outside every
    [try], is a plain function call: the rejection of the awaited part, or
    whatever that call returns or throws. *)
Definition uncaught {A} (r : option (CarrierServiceError + (Thrown + A)))
    : option (Thrown + A) :=
  match r with
  | Some (inr result) => Some result
  | Some (inl e) => Some (inl (ThrownService e))
  | None => None
  end.

Definition getRates (w : World) (request : RateRequest)
    : UPSRateService -> option (Thrown + RateResponse) * UPSRateService :=
  fun s =>
  let requestId := generateRequestId w in
  let '(r, s') :=
    (validatedRequest <- validateRequest request ;;
     accessToken <- getAccessToken w ;;
     let upsRequest :=
       Mapper.toUPSRateRequest (finiteToString w) (simpleRequest validatedRequest)
                               (accountNumber (config s)) None in
     upsResponse <-
       try_catch (callRatingApi w upsRequest accessToken requestId)
         (fun error =>
            if isAuthError error then
              freshToken <- forceRefresh w ;;
              callRatingApi w upsRequest freshToken requestId
            else throw error) ;;
     ret (Mapper.fromUPSRateResponse_any upsResponse requestId (Some validatedRequest))) s in
  (uncaught r, s').


End Service.

(* ===================================================================== *)
(** ** More ECMAScript built-ins: case mapping, integers, JSON values *)
(* ===================================================================== *)

Module JSText.

(** [String.prototype.toUpperCase], on the ASCII letters (the other bytes
    are kept). *)
Definition upper_char (c : ascii) : ascii :=
  let n := nat_of_ascii c in
  if (97 <=? n)%nat && (n <=? 122)%nat then ascii_of_nat (n - 32) else c.

Fixpoint toUpperCase (s : string) : string :=
  match s with
  | String c r => String (upper_char c) (toUpperCase r)
  | EmptyString => EmptyString
  end.

(** [Array.prototype.includes] on strings. *)
Definition includes (l : list string) (x : string) : bool :=
  existsb (String.eqb x) l.

(** The integer part of a rational, towards zero. *)
Definition truncate (q : Q) : Z := Z.quot (Qnum q) (Z.pos (Qden q)).

(** [x | 0]: ToInt32. *)
Definition ToInt32 (x : JS.Num) : Z :=
  match x with
  | JS.Fin q =>
      let n := truncate q mod 2 ^ 32 in
      if n <? 2 ^ 31 then n else n - 2 ^ 32
  | _ => 0
  end.

Definition hex_char (d : N) : ascii :=
  match d with
  | 0 => "0" | 1 => "1" | 2 => "2" | 3 => "3" | 4 => "4" | 5 => "5" | 6 => "6"
  | 7 => "7" | 8 => "8" | 9 => "9" | 10 => "a" | 11 => "b" | 12 => "c"
  | 13 => "d" | 14 => "e" | _ => "f"
  end%char%N.

Fixpoint hex_go (fuel : nat) (n : N) (acc : string) : string :=
  match fuel with
  | O => acc
  | S fuel' =>
      if (n =? 0)%N then acc
      else hex_go fuel' (n / 16)%N (String (hex_char (n mod 16)%N) acc)
  end.

(** [v.toString(16)] on an integer. *)
Definition toString16 (v : Z) : string :=
  if v =? 0 then "0"
  else
    let n := Z.to_N (Z.abs v) in
    (if v <? 0 then "-" else "") +:+ hex_go (S (N.size_nat n)) n "".

End JSText.

Module Json.

(** A value of type [unknown] as a response body can be. *)
Inductive Value : Type :=
| Undefined
| Null
| Bool (b : bool)
| Num (n : JS.Num)
| Str (s : string)
| Arr (items : list Value)
| Obj (props : list (string * Value)).

(** [typeof v === 'object' && v !== null] *)
Definition is_object (v : Value) : bool :=
  match v with Arr _ | Obj _ => true | _ => false end.

Definition truthy (v : Value) : bool :=
  match v with
  | Undefined | Null => false
  | Bool b => b
  | Num (JS.Fin q) => negb (Qnum q =? 0)
  | Num JS.NaN => false
  | Num (JS.Infinity _) => true
  | Str s => JS.truthy s
  | Arr _ | Obj _ => true
  end.

Fixpoint lookup (key : string) (props : list (string * Value)) : Value :=
  match props with
  | [] => Undefined
  | (k, v) :: rest => if String.eqb k key then v else lookup key rest
  end.

(** [v[key]] for a key that is neither an index nor a built-in property:
    the property of an object, [undefined] on an array or a primitive, and
    a TypeError ([None]) on [null] and [undefined]. *)
Definition get (v : Value) (key : string) : option Value :=
  match v with
  | Obj props => Some (lookup key props)
  | Undefined | Null => None
  | _ => Some Undefined
  end.

Section WithEngine.

(** Number::toString on finite numbers, the engine's. *)
Variable finiteToString : Q -> string.

(** [String(v)].  The elements of an array are joined with commas, [null]
    and [undefined] ones as empty strings. *)
Fixpoint ToString (v : Value) : string :=
  match v with
  | Undefined => "undefined"
  | Null => "null"
  | Bool true => "true"
  | Bool false => "false"
  | Num n => JS.toString finiteToString n
  | Str s => s
  | Arr items =>
      String.concat ","
        (map (fun item =>
                match item with
                | Undefined | Null => ""
                | _ => ToString item
                end) items)
  | Obj _ => "[object Object]"
  end.

End WithEngine.

End Json.

(* ===================================================================== *)
(** ** src/errors/index.ts: the helpers *)
(* ===================================================================== *)

Module ErrorHelpers.
Import Errors.

(** [isCarrierServiceError] *)
Definition isCarrierServiceError (error : Thrown) : bool :=
  match error with ThrownService _ => true | _ => false end.

(** [isRetryableError] *)
Definition isRetryableError (error : Thrown) : bool :=
  match error with
  | ThrownService e => isRetryable e
  | _ => false
  end.

(** [x ?? ''] then [String(...)] *)
Definition text_or_empty (finiteToString : Q -> string) (v : Json.Value) : string :=
  match v with
  | Json.Undefined | Json.Null => ""
  | _ => Json.ToString finiteToString v
  end.

(** The first entry of [body.response.errors], when [body] and
    [body.response] are objects and [errors] is a non-empty array. *)
Definition firstError (responseBody : Json.Value) : option Json.Value :=
  if Json.is_object responseBody then
    match Json.get responseBody "response" with
    | Some response =>
        if Json.truthy response && Json.is_object response then
          match Json.get response "errors" with
          | Some (Json.Arr (first :: _)) => Some first
          | _ => None
          end
        else None
    | None => None
    end
  else None.

(** [createErrorFromHttpResponse].  [inl] is the TypeError of reading a
    property of [null] or [undefined]. *)
Definition createErrorFromHttpResponse (finiteToString : Q -> string)
    (httpStatus : Z) (responseBody : Json.Value) (carrier : string)
    (requestId : option string) : Thrown + CarrierServiceError :=
  if httpStatus =? 429 then
    let retryAfter :=
      if Json.is_object responseBody
      then default Json.Undefined (Json.get responseBody "retryAfter")
      else Json.Undefined in
    inr (RateLimitError carrier
           (match retryAfter with Json.Num n => Some n | _ => None end)
           requestId)
  else if (httpStatus =? 401) || (httpStatus =? 403) then
    inr (AuthenticationError ("Authentication failed for " +:+ carrier)
                             (Some carrier) (Some httpStatus) None)
  else
    let fallback := carrier +:+ " API returned HTTP " +:+ pretty httpStatus in
    match firstError responseBody with
    | Some first =>
        match Json.get first "code", Json.get first "message" with
        | Some c, Some m =>
            let carrierErrorCode := text_or_empty finiteToString c in
            let carrierErrorMessage := text_or_empty finiteToString m in
            inr (CarrierApiError
                   (if JS.truthy carrierErrorMessage then carrierErrorMessage else fallback)
                   httpStatus (Some carrier) requestId
                   (Some carrierErrorCode) (Some carrierErrorMessage) None)
        | _, _ =>
            inl (ThrownOther
                   ("Cannot read properties of "
                    +:+ Json.ToString finiteToString first +:+ " (reading 'code')"))
        end
    | None =>
        inr (CarrierApiError fallback httpStatus (Some carrier) requestId None None None)
    end.

End ErrorHelpers.

(* ===================================================================== *)
(** ** src/carriers/ups/service.ts: [supportsRoute], [generateRequestId] *)
(* ===================================================================== *)

Module Routes.
Import Config.

(** [supportsRoute] *)
Definition supportsRoute (cfg : UPSConfig) (originCountry destinationCountry : string)
    : bool :=
  let supported := supportedCountries cfg in
  JSText.includes supported (JSText.toUpperCase originCountry)
  && JSText.includes supported (JSText.toUpperCase destinationCountry).

End Routes.

Module Ids.

(** ['...'.replace(/[xy]/g, fn)]: every [x] and [y] of the template, from
    left to right, is replaced by what the callback returns for it; [i]
    counts the calls made so far. *)
Fixpoint replace_xy (fn : ascii -> nat -> string) (template : string) (i : nat)
    : string :=
  match template with
  | String c rest =>
      if Ascii.eqb c "x" || Ascii.eqb c "y"
      then fn c i +:+ replace_xy fn rest (S i)
      else String c (replace_xy fn rest i)
  | EmptyString => EmptyString
  end.

Definition template : string := "xxxxxxxx-xxxx-4xxx-yxxx-xxxxxxxxxxxx".

(** The callback: [random i] is what the i-th call of [Math.random()]
    returns. *)
Definition digit (random : nat -> Q) (c : ascii) (i : nat) : string :=
  let r := JSText.ToInt32 (JS.Fin (random i * inject_Z 16)) in
  let v := if Ascii.eqb c "x" then r else Z.lor (Z.land r 3) 8 in
  JSText.toString16 v.

(** [generateRequestId] of the rate service. *)
Definition generateRequestId (random : nat -> Q) : string :=
  replace_xy (digit random) template 0.

(** [generateUUID] of src/utils: [crypto.randomUUID()] when the platform
    has it ([randomUUID] is what it would return), the same fallback
    otherwise. *)
Definition generateUUID (randomUUID : option string) (random : nat -> Q) : string :=
  match randomUUID with
  | Some uuid => uuid
  | None => replace_xy (digit random) template 0
  end.

End Ids.

(* ===================================================================== *)
(** ** src/utils/index.ts: [withRetry] *)
(* ===================================================================== *)

Module Utils.
Import Errors.

Record RetryOptions : Type := mkRetryOptions {
  maxRetries : option Z;
  initialDelayMs : option Z;
  maxDelayMs : option Z;
  shouldRetry : option (Thrown -> bool)
}.

(** How a call of [withRetry] ends: with the value of the operation, with
    the error of an attempt, or with [undefined] thrown after a loop that
    never ran. *)
Inductive Outcome (T : Type) : Type :=
| Resolved (value : T)
| Threw (error : Thrown)
| ThrewUndefined.
Arguments Resolved {T} value.
Arguments Threw {T} error.
Arguments ThrewUndefined {T}.

Record Run (T : Type) : Type := mkRun {
  outcome : Outcome T;
  calls : nat;             (* invocations of the operation *)
  sleeps : list Z          (* the delays passed to [sleep], in order *)
}.
Arguments mkRun {T} outcome calls sleeps.
Arguments outcome {T} r.
Arguments calls {T} r.
Arguments sleeps {T} r.

Section WithRetry.

Context {T : Type}.

(** [operation n] is what the n-th invocation of the operation settles
    with (the first one is number 0). *)
Variable operation : nat -> Thrown + T.
Variable options : RetryOptions.

Definition the_maxRetries : Z := default 3 (maxRetries options).
Definition the_initialDelayMs : Z := default 1000 (initialDelayMs options).
Definition the_maxDelayMs : Z := default 30000 (maxDelayMs options).
Definition the_shouldRetry : Thrown -> bool :=
  default (fun _ => true) (shouldRetry options).

(** [Math.min(initialDelayMs * Math.pow(2, attempt), maxDelayMs)] *)
Definition delay (attempt : nat) : Z :=
  Z.min (the_initialDelayMs * 2 ^ Z.of_nat attempt) the_maxDelayMs.

(** The loop from [attempt] on, with [remaining] the number of attempts
    for which [attempt <= maxRetries] still holds. *)
Fixpoint loop (remaining attempt : nat) (lastError : option Thrown)
    (slept : list Z) : Run T :=
  match remaining with
  | O =>
      mkRun (match lastError with Some e => Threw e | None => ThrewUndefined end)
            attempt slept
  | S remaining' =>
      match operation attempt with
      | inr value => mkRun (Resolved value) (S attempt) slept
      | inl error =>
          if (Z.of_nat attempt =? the_maxRetries) || negb (the_shouldRetry error)
          then mkRun (Threw error) (S attempt) slept
          else loop remaining' (S attempt) (Some error) (slept ++ [delay attempt])
      end
  end.

(** [withRetry], for a whole number [maxRetries]. *)
Definition withRetry : Run T :=
  loop (Z.to_nat (the_maxRetries + 1)) 0 None [].

End WithRetry.

End Utils.

(* ===================================================================== *)
(** ** src/carriers/ups/auth.ts: runs that also clear the cache *)
(* ===================================================================== *)

Module AuthRuns.
Import Auth.

(** An event of the manager, or a call of [clearCache()]. *)
Inductive Op : Type :=
| Happens (e : Event)
| ClearCache.

Definition apply (o : Op) (m : UPSAuthManager) : UPSAuthManager :=
  match o with
  | Happens e => snd (step e m)
  | ClearCache => clearCache m
  end.

Definition exec (os : list Op) (m : UPSAuthManager) : UPSAuthManager :=
  fold_left (fun m o => apply o m) os m.

End AuthRuns.

(* ===================================================================== *)
(** ** Vocabulary of the properties *)
(* ===================================================================== *)

Import Errors Config.

(** *** Token cache and refresh coordinator *)

(** The client identifier and the client secret are both set. *)
Definition configured (cfg : UPSConfig) : Prop :=
  clientId cfg <> "" /\ clientSecret cfg <> "".

(** The [code]s of an AxiosError that the auth manager reads as a time-out,
    and as a refused connection or a failed DNS lookup. *)
Definition timeout_code (e : AxiosError) : bool :=
  code_is e "ECONNABORTED" || code_is e "ETIMEDOUT".

Definition unreachable_code (e : AxiosError) : bool :=
  code_is e "ENOTFOUND" || code_is e "ECONNREFUSED".

(** What a refresh settles with, given the reply of the token endpoint. *)
Definition reply_result (cfg : UPSConfig) (reply : Auth.TokenReply)
    : CarrierServiceError + string :=
  match reply with
  | Auth.TokenOk (Some tokenData) => inr (Wire.access_token tokenData)
  | Auth.TokenOk None =>
      inl (Auth.refreshToken_catch cfg
             (ThrownOther "Cannot read properties of undefined (reading 'access_token')"))
  | Auth.TokenFail t => inl (Auth.refreshToken_catch cfg t)
  end.

(** The state of a promise that has settled with a given result. *)
Definition of_result (r : CarrierServiceError + string) : Auth.PromiseState :=
  match r with inr t => Auth.Fulfilled t | inl e => Auth.Rejected e end.

(** The events that can happen while the refresh [p] is in flight and its
    starter has not yet run its [finally] block: further callers arrive (a
    [getAccessToken] caller finds no valid credential in the cache), and
    the token endpoint answers the request of [p]. *)
Fixpoint in_flight (p : nat) (es : list Auth.Event) (m : Auth.UPSAuthManager) : Prop :=
  match es with
  | [] => True
  | e :: rest =>
      match e with
      | Auth.CallGetAccessToken now => Auth.isTokenValid now m = false
      | Auth.CallForceRefresh _ => True
      | Auth.TokenReplyArrives _ q _ => q = p
      | Auth.FinallyRuns _ => False
      end
      /\ in_flight p rest (snd (Auth.step e m))
  end.

(** The events that are calls. *)
Definition is_call (e : Auth.Event) : bool :=
  match e with
  | Auth.CallGetAccessToken _ | Auth.CallForceRefresh _ => true
  | _ => false
  end.

(** What the events of [in_flight] preserve: the marker names [p], [p] is a
    promise of the manager, and the requests sent are [sent]. *)
Record flying (p : nat) (cfg : UPSConfig) (sent : list Auth.TokenRequest)
    (m : Auth.UPSAuthManager) : Prop := mkFlying {
  fl_marker : Auth.tokenRefreshPromise m = Some p;
  fl_config : Auth.config m = cfg;
  fl_sent : Auth.tokenRequests m = sent;
  fl_exists : is_Some (Auth.promises m !! p)
}.

(** *** Numerals *)

(** Strings of decimal digits only. *)
Fixpoint all_digits (s : string) : bool :=
  match s with
  | String c r => JS.is_digit c && all_digits r
  | EmptyString => true
  end.

(** [n] is the integer nearest to [x], the larger one on a tie. *)
Definition nearest (n : Z) (x : Q) : Prop :=
  (inject_Z n - (1 # 2) <= x)%Q /\ (x < inject_Z n + (1 # 2))%Q.

(** The tenths [n], written with one decimal place: the digits of
    [n / 10], a point, the digit [n mod 10]. *)
Definition one_decimal (n : N) : string :=
  pretty (n / 10)%N +:+ "." +:+ pretty (n mod 10)%N.

(** *** Rate service *)

(** The [code]s of an AxiosError that the rate service reads as a failed
    connection. *)
Definition connection_code (e : AxiosError) : bool :=
  code_is e "ENOTFOUND" || code_is e "ECONNREFUSED" || code_is e "ECONNRESET".

(** A response body without the list of rated shipments: no body, a body
    that is not an object, an object without [RateResponse], or a
    [RateResponse] whose [RatedShipment] is missing or is not a list. *)
Definition lacks_rated_shipments (data : Wire.RatingBody) : Prop :=
  match data with
  | Wire.BodyAbsent | Wire.BodyText _ | Wire.BodyObject None => True
  | Wire.BodyObject (Some rr) =>
      match Wire.body_RatedShipment rr with
      | Some (Wire.ShipmentList _) => False
      | _ => True
      end
  end.

(** The two ways to lack the list: [RatedShipment] is missing or falsy
    (or there is nothing to look for it in); or it is there and truthy,
    but not a list. *)
Definition without_rated_shipments (data : Wire.RatingBody) : Prop :=
  match data with
  | Wire.BodyAbsent | Wire.BodyText _ | Wire.BodyObject None => True
  | Wire.BodyObject (Some rr) =>
      match Wire.body_RatedShipment rr with
      | Some v => Wire.truthy v = false
      | None => True
      end
  end.

Definition rated_shipments_of_wrong_type (data : Wire.RatingBody) : Prop :=
  match data with
  | Wire.BodyObject (Some rr) =>
      match Wire.body_RatedShipment rr with
      | Some (Wire.NotAList v) => Wire.truthy (Wire.NotAList v) = true
      | _ => False
      end
  | _ => False
  end.


(** The wire request [getRates] builds, the POST [callRatingApi] sends with
    a given token, and a service that has sent one more POST. *)
Definition wireRequest (w : Service.World) (cfg : UPSConfig)
    (validatedRequest : Domain.RateRequest) : Wire.UPSRateRequest :=
  Mapper.toUPSRateRequest (Service.finiteToString w)
    (Service.simpleRequest validatedRequest) (accountNumber cfg) None.

Definition ratingPost (request : Wire.UPSRateRequest) (accessToken requestId : string)
    : Service.RatingRequest :=
  Service.mkRatingRequest "/api/rating/v1/Rate" request "application/json"
    ("Bearer " +:+ accessToken) requestId "carrier-integration-service".

Definition having_sent (post : Service.RatingRequest) (s : Service.UPSRateService)
    : Service.UPSRateService :=
  Service.mkService (Service.config s) (Service.authManager s)
    (Service.ratingRequests s ++ [post]) (Service.ticks s).

(** What one rating call comes to, given the reply of the endpoint. *)
Definition rating_result (cfg : UPSConfig) (requestId : string)
    (reply : Service.RatingReply) : CarrierServiceError + Wire.RateResponseBlock :=
  match reply with
  | Service.RatingOk data =>
      match Service.ratedShipments data with
      | Some response => inr response
      | None =>
          inl (ResponseParsingError "Invalid response structure from UPS Rating API"
                 (Some "UPS") (Some requestId) data None)
      end
  | Service.RatingFail failure => inl (Service.callRatingApi_catch cfg requestId failure)
  end.

(** What [getRates] returns for the result of its last rating call. *)
Definition rates_result (requestId : string) (validatedRequest : Domain.RateRequest)
    (r : CarrierServiceError + Wire.RateResponseBlock)
    : option (Thrown + Domain.RateResponse) :=
  match r with
  | inl e => Some (inl (ThrownService e))
  | inr response =>
      Some (Mapper.fromUPSRateResponse_any response requestId (Some validatedRequest))
  end.

(** *** Examples, after the fixtures of the tests *)

(** The configuration of the test suite, and the same without credentials. *)
Definition testConfig : UPSConfig :=
  mkUPSConfig "UPS" "United Parcel Service" "test-client-id" "test-client-secret"
    "test-account-123" "https://onlinetools.ups.com"
    "https://onlinetools.ups.com/security/v1/oauth/token" 5000 false ["US"; "CA"; "MX"].

Definition noCredsConfig : UPSConfig :=
  mkUPSConfig "UPS" "United Parcel Service" "" ""
    "test-account-123" "https://onlinetools.ups.com"
    "https://onlinetools.ups.com/security/v1/oauth/token" 5000 false ["US"; "CA"; "MX"].

Definition successfulTokenResponse : Wire.UPSTokenResponse :=
  Wire.mkTokenResponse "eyJhbGciOiJSUzI1NiIsInR5cCI6IkpXVCJ9" "Bearer" 14400
    "2024-01-15T10:00:00Z" "approved".

(** The request of the mapper tests, and a number printer to stand for the
    engine's (the examples never reach it). *)
Definition sampleAddress (line cityName state zip : string) : Domain.Address :=
  Domain.mkAddress [line] cityName state zip "US".

Definition sampleRequest : Domain.RateRequest :=
  Domain.mkRateRequest
    (sampleAddress "123 Sender St" "New York" "NY" "10001")
    (sampleAddress "456 Receiver Ave" "Los Angeles" "CA" "90001")
    (Domain.mkContact "Test Shipper")
    [Domain.mkPackage (Domain.mkWeight (JS.Fin (5 # 1)) Domain.LB) None]
    None.

Definition noPrinter : Q -> string := fun _ => "".

(** A rated shipment with the given total, transit days and alerts. *)
Definition ratedShipment (description : option string) (total : Wire.UPSCharges)
    (days : option Wire.UPSGuaranteedDelivery) (alerts : option (list Wire.UPSAlert))
    : Wire.UPSRatedShipment :=
  Wire.mkRatedShipment (Wire.mkService "03" description) None None None total
                       days None alerts None.

(** An AxiosError for an HTTP status, as axios builds it. *)
Definition httpError (status : Z) (headers : gmap string string) : AxiosError :=
  mkAxiosError (Some (if status <? 500 then "ERR_BAD_REQUEST" else "ERR_BAD_RESPONSE"))
               (Some (mkAxiosResponse status headers)).

(** Fixtures of the service tests: the valid request, a token document for
    a given token, the rating bodies, and a world scripted after the two
    endpoints. *)
Definition validRateRequest : Domain.RateRequest :=
  Domain.mkRateRequest
    (sampleAddress "123 Sender Street" "New York" "NY" "10001")
    (sampleAddress "456 Receiver Avenue" "Los Angeles" "CA" "90001")
    (Domain.mkContact "Test Shipper")
    [Domain.mkPackage (Domain.mkWeight (JS.Fin (55 # 10)) Domain.LB)
       (Some (Domain.mkDimensions (JS.Fin (12 # 1)) (JS.Fin (8 # 1)) (JS.Fin (6 # 1))
                                  Domain.IN))]
    None.

Definition tokenDocument (token : string) : Auth.TokenReply :=
  Auth.TokenOk (Some (Wire.mkTokenResponse token "Bearer" 14400
                        "2024-01-15T10:00:00Z" "approved")).

Definition successBlock : Wire.UPSResponseBlock :=
  Wire.mkResponseBlock "1" "Success" None None.

Definition bodyWithoutRatedShipment : Wire.RatingBody :=
  Wire.BodyObject (Some (Wire.mkRateResponseBlock (Some successBlock) None)).

Definition successfulRateBody : Wire.RatingBody :=
  Wire.BodyObject
    (Some (Wire.mkRateResponseBlock (Some successBlock)
             (Some (Wire.ShipmentList
                      [ratedShipment (Some "UPS Ground") (Wire.mkCharges "USD" "12.50")
                         (Some (Wire.mkGuaranteed (Some "5") None)) None])))).

(** A body whose [RatedShipment] is one rated shipment, an object, where
    the list should be. *)
Definition bodyWithOneShipmentObject : Wire.RatingBody :=
  Wire.BodyObject
    (Some (Wire.mkRateResponseBlock (Some successBlock)
             (Some (Wire.NotAList Wire.JsonObject)))).

Definition scripted (tokens : list Auth.TokenReply) (ratings : list Service.RatingReply)
    : Service.World :=
  Service.mkWorld
    (fun n => default (Auth.TokenFail (ThrownOther "no match for request")) (tokens !! n))
    (fun n => default (Service.RatingFail (ThrownOther "no match for request")) (ratings !! n))
    (fun n => 1000 * Z.of_nat n)
    "00000000-0000-4000-8000-000000000000"
    noPrinter.


(** The credential a token document makes when it arrives at time [t]. *)
Definition credential (t : Z) (tokenData : Wire.UPSTokenResponse) : Auth.CachedToken :=
  Auth.mkCachedToken (Wire.access_token tokenData)
                     (t + Wire.expires_in tokenData * 1000)
                     (Wire.token_type tokenData).


(* ===================================================================== *)
(** ** Vocabulary of the further properties *)
(* ===================================================================== *)

(** *** Routes *)

(** A string that [toUpperCase] leaves as it is. *)
Definition upper_case (s : string) : bool := String.eqb (JSText.toUpperCase s) s.

Definition with_supportedCountries (countries : list string) (cfg : UPSConfig)
    : UPSConfig :=
  mkUPSConfig (carrierId cfg) (carrierName cfg) (clientId cfg) (clientSecret cfg)
    (accountNumber cfg) (baseUrl cfg) (tokenUrl cfg) (timeoutMs cfg) (useSandbox cfg)
    countries.

(** *** Identifiers *)

Definition is_hex (c : ascii) : bool :=
  JS.is_digit c || ((97 <=? JS.code c)%nat && (JS.code c <=? 102)%nat).

(** The character [c] is allowed where the template has [t]: a hexadecimal
    digit for [x], one of 8, 9, a, b for [y], the character itself
    otherwise. *)
Definition fits (t c : ascii) : bool :=
  if Ascii.eqb t "x" then is_hex c
  else if Ascii.eqb t "y" then
    Ascii.eqb c "8" || Ascii.eqb c "9" || Ascii.eqb c "a" || Ascii.eqb c "b"
  else Ascii.eqb t c.

Fixpoint shaped_like (template s : string) : bool :=
  match template, s with
  | EmptyString, EmptyString => true
  | String t template', String c s' => fits t c && shaped_like template' s'
  | _, _ => false
  end.

(** What [Math.random()] promises: a number from 0 up to, not including, 1. *)
Definition unit_interval (random : nat -> Q) : Prop :=
  forall i, (0 <= random i)%Q /\ (random i < 1)%Q.

(** *** Retries *)

Definition settles_with {T} (r : Thrown + T) : Utils.Outcome T :=
  match r with
  | inr value => Utils.Resolved value
  | inl error => Utils.Threw error
  end.

(** The attempt [k] ends the loop: it succeeds, or it fails and either is
    the last one allowed or fails with an error not to be retried. *)
Definition decisive {T} (operation : nat -> Thrown + T) (options : Utils.RetryOptions)
    (k : nat) : bool :=
  match operation k with
  | inr _ => true
  | inl error =>
      (Z.of_nat k =? Utils.the_maxRetries options)
      || negb (Utils.the_shouldRetry options error)
  end.

Definition defaultOptions : Utils.RetryOptions :=
  Utils.mkRetryOptions None None None None.

(** *** HTTP failures *)

(** A body of type [UPSErrorResponse]: [{response: {errors: [{code,
    message}, ...]}}]. *)
Definition upsErrorBody (errors : list (string * string)) : Json.Value :=
  Json.Obj
    [("response",
      Json.Obj
        [("errors",
          Json.Arr
            (map (fun e => Json.Obj [("code", Json.Str (fst e));
                                     ("message", Json.Str (snd e))])
                 errors))])].

(** Strings of ASCII characters, on which the case mapping is modelled. *)
Fixpoint ascii_only (s : string) : bool :=
  match s with
  | String c r => (JS.code c <? 128)%nat && ascii_only r
  | EmptyString => true
  end.

(** *** Runs of the auth manager *)

(** Each [finally] block runs while the marker still names the promise its
    caller started: what happens when nobody clears the cache meanwhile. *)
Fixpoint orderly (es : list Auth.Event) (m : Auth.UPSAuthManager) : Prop :=
  match es with
  | [] => True
  | e :: rest =>
      match e with
      | Auth.FinallyRuns p => Auth.tokenRefreshPromise m = Some p
      | _ => True
      end
      /\ orderly rest (snd (Auth.step e m))
  end.

(** What every run keeps of a manager made for [cfg]. *)
Record well_formed (cfg : UPSConfig) (m : Auth.UPSAuthManager) : Prop := mkWellFormed {
  wf_config : Auth.config m = cfg;
  wf_marker : forall p, Auth.tokenRefreshPromise m = Some p ->
                        is_Some (Auth.promises m !! p);
  wf_requests : Forall (fun r => r = Auth.basic_request cfg) (Auth.tokenRequests m);
  wf_unconfigured :
    clientId cfg = "" \/ clientSecret cfg = "" ->
    Auth.tokenRequests m = [] /\ Auth.cachedToken m = None
    /\ Forall (fun st => st = Auth.Rejected (InvalidCredentialsError "UPS"))
              (Auth.promises m);
  wf_cached : forall c, Auth.cachedToken m = Some c ->
                        exists q, Auth.promises m !! q
                                  = Some (Auth.Fulfilled (Auth.accessToken c));
  wf_sent : (length (Auth.tokenRequests m) <= length (Auth.promises m))%nat
}.

(** *** Requests the schema accepts *)

(** A number that is finite and above zero. *)
Definition positive (x : JS.Num) : Prop :=
  exists q, x = JS.Fin q /\ (0 < q)%Q.

Definition acceptable_address (a : Domain.Address) : Prop :=
  (1 <= length (Domain.addressLines a) <= 2)%nat
  /\ String.length (Domain.countryCode a) = 2%nat.

Definition acceptable_package (p : Domain.Package) : Prop :=
  (exists q, Domain.weight_value (Domain.weight p) = JS.Fin q
             /\ (0 < q)%Q /\ (q <= inject_Z 150)%Q)
  /\ match Domain.dimensions p with
     | Some d =>
         positive (Domain.dim_length d) /\ positive (Domain.dim_width d)
         /\ positive (Domain.dim_height d)
     | None => True
     end.

(** One or two address lines and a two-letter country code at both ends, at
    least one package, every weight above 0 and at most 150, every dimension
    given above 0. *)
Definition acceptable (r : Domain.RateRequest) : Prop :=
  acceptable_address (Domain.origin r)
  /\ acceptable_address (Domain.destination r)
  /\ Domain.packages r <> []
  /\ Forall acceptable_package (Domain.packages r).




(* ===================================================================== *)
(** ** Decimal numerals: printing with [pretty], reading with [parseInt] *)
(* ===================================================================== *)

Section Numerals.

Lemma string_app_cons (x : ascii) (a b : string) :
  String x a +:+ b = String x (a +:+ b).
Proof. reflexivity. Qed.

Lemma string_app_nil_l (a : string) : "" +:+ a = a.
Proof. reflexivity. Qed.

Lemma string_app_assoc (a b c : string) : (a +:+ b) +:+ c = a +:+ (b +:+ c).
Proof.
  induction a as [|x a IH]; [reflexivity|].
  by rewrite !string_app_cons, IH.
Qed.

Lemma pretty_N_go_app (x : N) (s : string) :
  pretty_N_go x s = pretty_N_go x "" +:+ s.
Proof.
  revert s. induction (N.lt_wf_0 x) as [x _ IH]; intros s.
  destruct (decide (x = 0%N)) as [-> | Hx]; [by rewrite !pretty_N_go_0|].
  assert (Hlt : (x `div` 10 < x)%N) by (apply N.div_lt; lia).
  rewrite !(pretty_N_go_step x) by lia.
  rewrite (IH _ Hlt (String _ s)), (IH _ Hlt (String _ "")).
  by rewrite string_app_assoc.
Qed.

Lemma pretty_N_char_digit (d : N) :
  (d < 10)%N ->
  JS.is_digit (pretty_N_char d) = true
  /\ JS.digit_value (pretty_N_char d) = Z.of_N d.
Proof.
  intros Hd.
  assert (d = 0 \/ d = 1 \/ d = 2 \/ d = 3 \/ d = 4 \/ d = 5 \/ d = 6
          \/ d = 7 \/ d = 8 \/ d = 9)%N as Hcases by lia.
  repeat (destruct Hcases as [-> | Hcases]; [by split|]). subst d. by split.
Qed.

Lemma all_digits_app (a b : string) :
  all_digits (a +:+ b) = all_digits a && all_digits b.
Proof.
  induction a as [|c a IH]; [reflexivity|].
  rewrite string_app_cons. cbn [all_digits]. rewrite IH. by rewrite andb_assoc.
Qed.

Lemma pretty_N_go_digits (x : N) : all_digits (pretty_N_go x "") = true.
Proof.
  induction (N.lt_wf_0 x) as [x _ IH].
  destruct (decide (x = 0%N)) as [-> | Hx]; [reflexivity|].
  rewrite pretty_N_go_step, pretty_N_go_app by lia.
  rewrite all_digits_app, IH by (apply N.div_lt; lia). cbn.
  destruct (pretty_N_char_digit (x `mod` 10)%N) as [-> _]; [|reflexivity].
  apply N.mod_lt. lia.
Qed.

Lemma pretty_N_digits (n : N) : all_digits (pretty n) = true.
Proof.
  unfold pretty, pretty_N. case_decide; [reflexivity | apply pretty_N_go_digits].
Qed.





Lemma pretty_N_go_nonempty (x : N) : (0 < x)%N -> pretty_N_go x "" <> "".
Proof.
  intros Hx. rewrite pretty_N_go_step, pretty_N_go_app by done.
  destruct (pretty_N_go (x `div` 10) ""); [|rewrite string_app_cons]; discriminate.
Qed.

Lemma pretty_N_head (n : N) :
  exists c r, pretty n = String c r /\ JS.is_digit c = true.
Proof.
  pose proof (pretty_N_digits n) as Hd.
  assert (Hne : pretty n <> "").
  { unfold pretty, pretty_N. case_decide; [discriminate|].
    apply pretty_N_go_nonempty. lia. }
  destruct (pretty n) as [|c r]; [congruence|].
  exists c, r. split; [reflexivity|]. by apply andb_prop in Hd as [? _].
Qed.








End Numerals.

(* ===================================================================== *)
(** ** [toFixed(1)] *)
(* ===================================================================== *)

Section ToFixed.

Lemma round_half_up_nearest (x : Q) : nearest (JS.round_half_up x) x.
Proof.
  destruct x as [a d]. unfold nearest, JS.round_half_up. cbn [Qnum Qden].
  set (D := Z.pos d). assert (HD : 0 < D) by (unfold D; lia).
  pose proof (Z.div_mod (2 * a + D) (2 * D) ltac:(lia)) as Hdm.
  pose proof (Z.mod_pos_bound (2 * a + D) (2 * D) ltac:(lia)) as Hb.
  set (n := (2 * a + D) / (2 * D)) in *.
  unfold Qle, Qlt, Qminus, Qplus, Qopp, inject_Z. cbn.
  fold D. split; nia.
Qed.

Lemma round_half_up_nonneg (x : Q) : (0 <= x)%Q -> 0 <= JS.round_half_up x.
Proof.
  destruct x as [a d]. unfold Qle, JS.round_half_up. cbn. intros Ha.
  apply Z.div_pos; lia.
Qed.

Lemma pretty_N_small (x : N) :
  (x < 10)%N -> pretty x = String (pretty_N_char x) "".
Proof.
  intros Hx.
  assert (x = 0 \/ x = 1 \/ x = 2 \/ x = 3 \/ x = 4 \/ x = 5 \/ x = 6
          \/ x = 7 \/ x = 8 \/ x = 9)%N as Hcases by lia.
  repeat (destruct Hcases as [-> | Hcases]; [reflexivity|]). by subst x.
Qed.

Lemma pretty_N_large (x : N) :
  (10 <= x)%N ->
  pretty x = pretty (x / 10)%N +:+ String (pretty_N_char (x mod 10)) "".
Proof.
  intros Hx. unfold pretty, pretty_N.
  assert (x / 10 <> 0)%N by (intros H0; apply N.div_small_iff in H0; lia).
  rewrite !decide_False by lia.
  rewrite pretty_N_go_step by lia. apply pretty_N_go_app.
Qed.

Lemma length_app_string (a b : string) :
  String.length (a +:+ b) = (String.length a + String.length b)%nat.
Proof.
  induction a as [|c a IH]; [reflexivity|].
  rewrite string_app_cons. cbn [String.length]. by rewrite IH.
Qed.

Lemma substring_prefix (a b : string) :
  String.substring 0 (String.length a) (a +:+ b) = a.
Proof.
  induction a as [|c a IH].
  - cbn [String.length]. by destruct (_ +:+ b).
  - rewrite string_app_cons. cbn [String.length String.substring]. by rewrite IH.
Qed.

Lemma substring_suffix (a b : string) :
  String.substring (String.length a) (String.length b) (a +:+ b) = b.
Proof.
  induction a as [|c a IH].
  - rewrite string_app_nil_l. cbn [String.length].
    induction b as [|c b IHb]; [reflexivity|].
    cbn [String.length String.substring]. by rewrite IHb.
  - rewrite string_app_cons. cbn [String.length String.substring]. exact IH.
Qed.

Lemma split_last_one (a : string) (c : ascii) :
  JS.split_last 1 (a +:+ String c "") = (a, String c "").
Proof.
  unfold JS.split_last. rewrite length_app_string. cbn [String.length].
  replace (String.length a + 1 - 1)%nat with (String.length a) by lia.
  rewrite substring_prefix.
  pose proof (substring_suffix a (String c "")) as Hsuffix.
  cbn [String.length] in Hsuffix. by rewrite Hsuffix.
Qed.

(** The digits [toFixed(1)] prints for the tenths [n]. *)
Lemma toFixed_digits (n : N) :
  let m := pretty n in
  let k := String.length m in
  JS.split_last 1 (if (k <=? 1)%nat then JS.zeros (1 + 1 - k) +:+ m else m)
  = (pretty (n / 10)%N, pretty (n mod 10)%N).
Proof.
  intros m k. subst k m.
  assert (Hmod : (n mod 10 < 10)%N) by (apply N.mod_lt; lia).
  destruct (decide (n < 10)%N) as [Hsmall | Hlarge].
  - rewrite (N.div_small n 10), (N.mod_small n 10) by lia.
    rewrite (pretty_N_small n Hsmall). reflexivity.
  - rewrite (pretty_N_small _ Hmod), (pretty_N_large n) by lia.
    rewrite length_app_string. cbn [String.length].
    destruct (pretty_N_head (n / 10)) as (c & r & -> & _).
    cbn [String.length].
    replace (S (String.length r) + 1 <=? 1)%nat with false
      by (symmetry; apply Nat.leb_gt; lia).
    apply split_last_one.
Qed.

(** [toFixed(1)] on a finite number below [10^21] in magnitude: a sign for
    a negative number, then the nearest number of tenths with one decimal
    place. *)
Lemma toFixed_one_decimal (finiteToString : Q -> string) (q : Q) :
  (Qabs q < inject_Z (10 ^ 21))%Q ->
  exists n : N,
    nearest (Z.of_N n) (Qabs q * inject_Z 10)
    /\ JS.toFixed finiteToString 1 (JS.Fin q)
       = (if Qnum q <? 0 then "-" else "") +:+ one_decimal n.
Proof.
  intros Hsmall.
  set (r := JS.round_half_up (Qabs q * inject_Z 10)).
  assert (Hr : 0 <= r).
  { apply round_half_up_nonneg. apply Qmult_le_0_compat; [apply Qabs_nonneg | done]. }
  exists (Z.to_N r). split.
  - rewrite Z2N.id by exact Hr. apply round_half_up_nearest.
  - unfold JS.toFixed.
    assert (Hguard : Qle_bool (inject_Z (10 ^ 21)) (Qabs q) = false).
    { apply not_true_is_false. intros Hle. apply Qle_bool_iff in Hle.
      apply (Qlt_not_le _ _ Hsmall Hle). }
    rewrite Hguard. change (JS.pow10 1) with 10. fold r.
    rewrite toFixed_digits. reflexivity.
Qed.

End ToFixed.
(* ===================================================================== *)
(** ** Token cache and refresh coordinator *)
(* ===================================================================== *)

Section AuthProperties.
Import Auth.

Lemma truthy_ne s : s <> "" -> JS.truthy s = true.
Proof. destruct s; [congruence | reflexivity]. Qed.

Lemma refreshToken_configured m :
  configured (config m) ->
  refreshToken m =
    (length (promises m),
     send (basic_request (config m)) (set_promises (promises m ++ [Pending]) m)).
Proof.
  intros [Hid Hsecret]. unfold refreshToken.
  rewrite (truthy_ne _ Hid), (truthy_ne _ Hsecret). reflexivity.
Qed.

Lemma refreshToken_unconfigured m :
  clientId (config m) = "" \/ clientSecret (config m) = "" ->
  refreshToken m =
    (length (promises m),
     set_promises (promises m ++ [Rejected (InvalidCredentialsError "UPS")]) m).
Proof.
  intros Hmissing. unfold refreshToken.
  assert (Hguard : negb (JS.truthy (clientId (config m)))
                   || negb (JS.truthy (clientSecret (config m))) = true).
  { destruct Hmissing as [-> | ->]; [reflexivity|]. apply orb_true_r. }
  by rewrite Hguard.
Qed.

Lemma refreshToken_lookup (m : UPSAuthManager) :
  is_Some (promises (snd (refreshToken m)) !! length (promises m)).
Proof.
  unfold refreshToken. destruct (_ || _); cbn;
    rewrite lookup_app_r, Nat.sub_diag by lia; by eexists.
Qed.

Lemma refreshToken_promise m : fst (refreshToken m) = length (promises m).
Proof. unfold refreshToken. destruct (_ || _); reflexivity. Qed.

Lemma refreshToken_allocates m :
  length (promises (snd (refreshToken m))) = S (length (promises m)).
Proof.
  unfold refreshToken. destruct (_ || _); cbn; rewrite length_app; cbn; lia.
Qed.

Lemma isTokenValid_spec m c now :
  cachedToken m = Some c ->
  isTokenValid now m = true <-> now < expiresAt c - 5 * 60 * 1000.
Proof.
  intros Hc. unfold isTokenValid, TOKEN_EXPIRY_BUFFER_MS. rewrite Hc.
  rewrite Z.ltb_lt. reflexivity.
Qed.

Lemma getAccessToken_invalid_none m now :
  isTokenValid now m = false ->
  tokenRefreshPromise m = None ->
  getAccessToken now m
  = (Started (length (promises m)),
     set_tokenRefreshPromise (Some (length (promises m))) (snd (refreshToken m))).
Proof.
  intros Hv Hp. unfold getAccessToken. rewrite Hv, Hp.
  pose proof (refreshToken_promise m) as Hfst.
  destruct (refreshToken m) as [p m']. cbn in *. subst p. reflexivity.
Qed.

Lemma getAccessToken_invalid_some m now p :
  isTokenValid now m = false ->
  tokenRefreshPromise m = Some p ->
  getAccessToken now m = (Joined p, m).
Proof. intros Hv Hp. unfold getAccessToken. rewrite Hv, Hp. reflexivity. Qed.

Lemma forceRefresh_some m now p :
  tokenRefreshPromise m = Some p ->
  forceRefresh now m = (Joined p, set_cachedToken None m).
Proof.
  intros Hp. unfold forceRefresh.
  by rewrite (getAccessToken_invalid_some (set_cachedToken None m) now p).
Qed.

Lemma settle_marker t p r m :
  tokenRefreshPromise (refreshToken_settle t p r m) = tokenRefreshPromise m.
Proof.
  unfold refreshToken_settle.
  destruct (promises m !! p) as [[]|]; try reflexivity.
  destruct r as [[d|]|th]; reflexivity.
Qed.

Lemma settle_config t p r m : config (refreshToken_settle t p r m) = config m.
Proof.
  unfold refreshToken_settle.
  destruct (promises m !! p) as [[]|]; try reflexivity.
  destruct r as [[d|]|th]; reflexivity.
Qed.

Lemma settle_sent t p r m :
  tokenRequests (refreshToken_settle t p r m) = tokenRequests m.
Proof.
  unfold refreshToken_settle.
  destruct (promises m !! p) as [[]|]; try reflexivity.
  destruct r as [[d|]|th]; reflexivity.
Qed.

Lemma settle_promises t p r m :
  promises (refreshToken_settle t p r m)
  = match promises m !! p with
    | Some Pending => <[p := of_result (reply_result (config m) r)]> (promises m)
    | _ => promises m
    end.
Proof.
  unfold refreshToken_settle.
  destruct (promises m !! p) as [[]|]; try reflexivity.
  destruct r as [[d|]|th]; reflexivity.
Qed.

Lemma settle_lookup t p r m :
  promises (refreshToken_settle t p r m) !! p
  = match promises m !! p with
    | Some Pending => Some (of_result (reply_result (config m) r))
    | other => other
    end.
Proof.
  rewrite settle_promises.
  destruct (promises m !! p) as [[]|] eqn:E; try exact E.
  apply list_lookup_insert_eq. apply lookup_lt_Some in E. exact E.
Qed.

Lemma of_result_settled r : of_result r <> Pending.
Proof. destruct r; discriminate. Qed.

Lemma step_flying p cfg sent e m :
  flying p cfg sent m ->
  in_flight p [e] m ->
  flying p cfg sent (snd (step e m))
  /\ (forall h, fst (step e m) = Some h -> h = Joined p).
Proof.
  intros [Hm Hc Hs Hex] [He _].
  destruct e as [now|now|now q r|q]; cbn [step in_flight] in *.
  - rewrite (getAccessToken_invalid_some m now p He Hm). cbn.
    split; [by constructor | by intros h [= <-]].
  - rewrite (forceRefresh_some m now p Hm). cbn.
    split; [by constructor | by intros h [= <-]].
  - subst q. cbn [fst snd]. split; [|discriminate].
    constructor.
    + by rewrite settle_marker.
    + by rewrite settle_config.
    + by rewrite settle_sent.
    + rewrite settle_lookup. destruct Hex as [st Hst]. rewrite Hst.
      destruct st; eauto.
  - contradiction.
Qed.

Lemma run_flying p cfg sent es m :
  flying p cfg sent m ->
  in_flight p es m ->
  flying p cfg sent (snd (run es m))
  /\ Forall (fun h => h = Joined p) (fst (run es m)).
Proof.
  revert m. induction es as [|e es IH]; intros m Hfl Hin.
  - cbn. split; [exact Hfl | constructor].
  - destruct Hin as [He Hrest].
    destruct (step_flying p cfg sent e m Hfl (conj He I)) as [Hfl1 Hh].
    cbn [run]. destruct (step e m) as [h m1] eqn:Hstep. cbn in *.
    destruct (IH m1 Hfl1 Hrest) as [Hfl2 Hhs].
    destruct (run es m1) as [hs m2]. cbn in *.
    split; [exact Hfl2|].
    destruct h as [h|]; [|exact Hhs].
    constructor; [by apply Hh | exact Hhs].
Qed.

(** A promise that has settled keeps its state. *)
Lemma step_keeps_settled p e m st :
  tokenRefreshPromise m = Some p ->
  in_flight p [e] m ->
  promises m !! p = Some st -> st <> Pending ->
  promises (snd (step e m)) !! p = Some st.
Proof.
  intros Hm [He _] Hst Hne.
  destruct e as [now|now|now q r|q]; cbn [step in_flight] in *.
  - by rewrite (getAccessToken_invalid_some m now p He Hm).
  - by rewrite (forceRefresh_some m now p Hm).
  - subst q. cbn [snd]. rewrite settle_lookup, Hst. destruct st; congruence.
  - contradiction.
Qed.

Lemma run_keeps_settled p cfg sent es m st :
  flying p cfg sent m ->
  in_flight p es m ->
  promises m !! p = Some st -> st <> Pending ->
  promises (snd (run es m)) !! p = Some st.
Proof.
  revert m. induction es as [|e es IH]; intros m Hfl Hin Hst Hne; [exact Hst|].
  destruct Hin as [He Hrest].
  pose proof (step_keeps_settled p e m st (fl_marker _ _ _ _ Hfl) (conj He I) Hst Hne) as H1.
  destruct (step_flying p cfg sent e m Hfl (conj He I)) as [Hfl1 _].
  cbn [run]. destruct (step e m) as [h m1]. cbn in *.
  specialize (IH m1 Hfl1 Hrest H1 Hne).
  destruct (run es m1) as [hs m2]. exact IH.
Qed.

(** Callers alone leave a pending promise pending. *)
Lemma run_calls_pending p cfg sent es m :
  flying p cfg sent m ->
  in_flight p es m ->
  forallb is_call es = true ->
  promises (snd (run es m)) = promises m.
Proof.
  revert m. induction es as [|e es IH]; intros m Hfl Hin Hcalls; [reflexivity|].
  destruct Hin as [He Hrest]. cbn in Hcalls. apply andb_prop in Hcalls as [Hc Hcs].
  destruct (step_flying p cfg sent e m Hfl (conj He I)) as [Hfl1 _].
  assert (Hsame : promises (snd (step e m)) = promises m).
  { destruct e as [now|now|now q r|q]; cbn [step in_flight is_call] in *;
      try discriminate.
    - by rewrite (getAccessToken_invalid_some m now p He (fl_marker _ _ _ _ Hfl)).
    - by rewrite (forceRefresh_some m now p (fl_marker _ _ _ _ Hfl)). }
  cbn [run]. destruct (step e m) as [h m1]. cbn in *.
  specialize (IH m1 Hfl1 Hrest Hcs).
  destruct (run es m1) as [hs m2]. cbn in *. congruence.
Qed.

Lemma run_app es1 es2 m :
  run (es1 ++ es2) m
  = (fst (run es1 m) ++ fst (run es2 (snd (run es1 m))),
     snd (run es2 (snd (run es1 m)))).
Proof.
  revert m. induction es1 as [|e es1 IH]; intros m.
  - cbn. by destruct (run es2 m).
  - cbn [run app]. destruct (step e m) as [h m1]. rewrite IH.
    destruct (run es1 m1) as [hs1 m2]. cbn.
    destruct (run es2 m2) as [hs2 m3]. cbn. by destruct h.
Qed.

Lemma in_flight_app p es1 es2 m :
  in_flight p (es1 ++ es2) m ->
  in_flight p es1 m /\ in_flight p es2 (snd (run es1 m)).
Proof.
  revert m. induction es1 as [|e es1 IH]; intros m H.
  - cbn. by split.
  - cbn [app in_flight] in H. destruct H as [He Hrest].
    apply IH in Hrest as [H1 H2]. split.
    + cbn [in_flight]. by split.
    + cbn [run]. destruct (step e m) as [h m1]. cbn [snd] in *.
      by destruct (run es1 m1).
Qed.

(** C1, as stated, fails: three concurrent [getAccessToken()] calls on a
    manager without client identifier and secret, nothing cached, share one
    promise, yet no authentication request at all is sent (the claim
    promises exactly one). *)
Lemma C1_counterexample :
  let m := create noCredsConfig in
  let es := [CallGetAccessToken 0; CallGetAccessToken 0; CallGetAccessToken 0] in
  isTokenValid 0 m = false
  /\ fst (run es m) = [Started 0%nat; Joined 0%nat; Joined 0%nat]
  /\ length (tokenRequests (snd (run es m))) <> S (length (tokenRequests m)).
Proof. cbn. split; [reflexivity|]. split; [reflexivity|]. discriminate. Qed.

(** C1 (amended).  Let no valid Credential be cached and no refresh be in
    flight.  Then for a first [getAccessToken()] call followed by any number
    of further callers arriving while that refresh is in flight (before its
    starter runs the [finally] block): the first call starts a refresh and
    every other caller is handed the very same promise, so all of them
    settle with the identical token or the identical failure.  With the
    client identifier and secret configured exactly one authentication
    request is sent, and once the endpoint has answered the common result is
    the one determined by that answer; without them no request is sent and
    the common result is the invalid-credentials failure.  The [finally]
    block clears the in-flight marker whatever the outcome, and after a
    failed refresh the next call starts a new attempt, with a promise of its
    own (pending on a request of its own when the credentials are
    configured), instead of replaying the failed one. *)
Theorem C1_single_flight (m : UPSAuthManager) (now0 : Z) (es : list Event) :
  tokenRefreshPromise m = None ->
  isTokenValid now0 m = false ->
  let p := length (promises m) in
  let m1 := snd (getAccessToken now0 m) in
  in_flight p es m1 ->
  let hs := fst (run es m1) in
  let m2 := snd (run es m1) in
  fst (getAccessToken now0 m) = Started p
  /\ Forall (fun h => h = Joined p) hs
  /\ (forall h, In h (Started p :: hs) -> outcome m2 h = outcome m2 (Started p))
  /\ (configured (config m) ->
      tokenRequests m2 = tokenRequests m ++ [basic_request (config m)]
      /\ (forall es1 t r es2,
            es = es1 ++ TokenReplyArrives t p r :: es2 ->
            forallb is_call es1 = true ->
            outcome m2 (Started p) = Some (reply_result (config m) r)))
  /\ (clientId (config m) = "" \/ clientSecret (config m) = "" ->
      tokenRequests m2 = tokenRequests m
      /\ outcome m2 (Started p) = Some (inl (InvalidCredentialsError "UPS")))
  /\ (settled m2 p = true ->
      tokenRefreshPromise (snd (step (FinallyRuns p) m2)) = None)
  /\ (forall e now,
        promises m2 !! p = Some (Rejected e) ->
        let m3 := snd (step (FinallyRuns p) m2) in
        isTokenValid now m3 = false ->
        let p' := length (promises m3) in
        fst (getAccessToken now m3) = Started p'
        /\ p' <> p
        /\ (configured (config m) ->
            promises (snd (getAccessToken now m3)) !! p' = Some Pending
            /\ tokenRequests (snd (getAccessToken now m3))
               = tokenRequests m2 ++ [basic_request (config m)])).
Proof.
  intros Hnone Hinvalid p m1 Hin hs m2.
  assert (Hm1 : m1 = set_tokenRefreshPromise (Some p) (snd (refreshToken m))).
  { unfold m1. by rewrite (getAccessToken_invalid_none m now0 Hinvalid Hnone). }
  assert (Hcfg1 : config m1 = config m).
  { rewrite Hm1. unfold refreshToken. by destruct (_ || _). }
  assert (Hfl : flying p (config m) (tokenRequests m1) m1).
  { constructor; [by rewrite Hm1 | exact Hcfg1 | reflexivity |].
    rewrite Hm1. apply refreshToken_lookup. }
  destruct (run_flying p _ _ es m1 Hfl Hin) as [Hfl2 Hhs].
  fold m2 in Hfl2. fold hs in Hhs.
  split; [by rewrite (getAccessToken_invalid_none m now0 Hinvalid Hnone)|].
  split; [exact Hhs|].
  split; [|split; [|split; [|split]]].
  - intros h [<-|Hh]; [reflexivity|].
    rewrite Forall_forall in Hhs. rewrite (Hhs h); [reflexivity|].
    by apply list_elem_of_In.
  - intros Hcfg.
    assert (Hm1' : m1 = set_tokenRefreshPromise (Some p)
                          (send (basic_request (config m))
                                (set_promises (promises m ++ [Pending]) m))).
    { rewrite Hm1. by rewrite (refreshToken_configured m Hcfg). }
    assert (Hp1 : promises m1 !! p = Some Pending).
    { rewrite Hm1'. cbn. by rewrite lookup_app_r, Nat.sub_diag. }
    split.
    { rewrite (fl_sent _ _ _ _ Hfl2). by rewrite Hm1'. }
    intros es1 t r es2 Hes Hcalls.
    unfold m2. rewrite Hes, run_app. cbn [snd].
    rewrite Hes in Hin. apply in_flight_app in Hin as [Hin1 Hin2].
    destruct (run_flying p _ _ es1 m1 Hfl Hin1) as [Hfl1 _].
    pose proof (run_calls_pending p _ _ es1 m1 Hfl Hin1 Hcalls) as Hps.
    set (ma := snd (run es1 m1)) in *.
    destruct Hin2 as [_ Hin2]. cbn [run step snd] in *.
    set (mb := refreshToken_settle t p r ma) in *.
    assert (Hpb : promises mb !! p = Some (of_result (reply_result (config m) r))).
    { unfold mb. rewrite settle_lookup, Hps, Hp1. by rewrite (fl_config _ _ _ _ Hfl1). }
    assert (Hflb : flying p (config m) (tokenRequests m1) mb).
    { apply (step_flying p _ _ (TokenReplyArrives t p r) ma Hfl1). by split. }
    pose proof (run_keeps_settled p _ _ es2 mb _ Hflb Hin2 Hpb (of_result_settled _)) as Hend.
    destruct (run es2 mb) as [hs2 mc]. cbn [snd] in *.
    unfold outcome. rewrite Hend. by destruct (reply_result (config m) r).
  - intros Hmissing.
    assert (Hm1' : m1 = set_tokenRefreshPromise (Some p)
                          (set_promises
                             (promises m ++ [Rejected (InvalidCredentialsError "UPS")]) m)).
    { rewrite Hm1. by rewrite (refreshToken_unconfigured m Hmissing). }
    assert (Hp1 : promises m1 !! p = Some (Rejected (InvalidCredentialsError "UPS"))).
    { rewrite Hm1'. cbn. by rewrite lookup_app_r, Nat.sub_diag. }
    split.
    { rewrite (fl_sent _ _ _ _ Hfl2). by rewrite Hm1'. }
    pose proof (run_keeps_settled p _ _ es m1 _ Hfl Hin Hp1) as Hend.
    fold m2 in Hend. unfold outcome. by rewrite Hend.
  - intros Hs. cbn [step snd]. by rewrite Hs.
  - intros e now Hrej m3 Hinv3 p'.
    assert (Hsettled : settled m2 p = true) by (unfold settled; by rewrite Hrej).
    assert (Hm3 : m3 = getAccessToken_finally m2).
    { unfold m3. cbn [step snd]. by rewrite Hsettled. }
    assert (Hnone3 : tokenRefreshPromise m3 = None) by (by rewrite Hm3).
    assert (Hcfg3 : config m3 = config m).
    { rewrite Hm3. exact (fl_config _ _ _ _ Hfl2). }
    assert (Hlen : (p < p')%nat).
    { unfold p'. rewrite Hm3. cbn. apply lookup_lt_Some in Hrej. exact Hrej. }
    rewrite (getAccessToken_invalid_none m3 now Hinv3 Hnone3).
    cbn [fst snd]. fold p'. split; [reflexivity|]. split; [lia|].
    intros Hcfg. rewrite refreshToken_configured by (by rewrite Hcfg3).
    cbn [fst snd]. fold p'. split.
    + cbn. by rewrite lookup_app_r, Nat.sub_diag.
    + change (tokenRequests m3 ++ [basic_request (config m3)]
              = tokenRequests m2 ++ [basic_request (config m)]).
      by rewrite Hcfg3, Hm3.
Qed.

(** C1 on the configuration of the test suite: three callers, then the
    token document arrives. *)
Lemma C1_single_flight_witness :
  let m := create testConfig in
  let es := [CallGetAccessToken 1; CallGetAccessToken 2;
             TokenReplyArrives 100 0%nat (TokenOk (Some successfulTokenResponse))] in
  (tokenRefreshPromise m = None /\ isTokenValid 0 m = false
   /\ in_flight (length (promises m)) es (snd (getAccessToken 0 m)))
  /\ fst (run es (snd (getAccessToken 0 m))) = [Joined 0%nat; Joined 0%nat]
  /\ outcome (snd (run es (snd (getAccessToken 0 m)))) (Started 0%nat)
     = Some (inr (Wire.access_token successfulTokenResponse))
  /\ length (tokenRequests (snd (run es (snd (getAccessToken 0 m))))) = 1%nat.
Proof.
  assert (Hcfg : configured testConfig) by (split; discriminate).
  assert (Hin : in_flight 0
                  [CallGetAccessToken 1; CallGetAccessToken 2;
                   TokenReplyArrives 100 0%nat (TokenOk (Some successfulTokenResponse))]
                  (snd (getAccessToken 0 (create testConfig)))).
  { cbn. repeat split; reflexivity. }
  pose proof (C1_single_flight (create testConfig) 0 _ eq_refl eq_refl Hin) as H.
  cbv zeta in H. destruct H as (_ & _ & _ & Hconfigured & _).
  destruct (Hconfigured Hcfg) as [Hsent Hres].
  split; [by repeat split|]. split; [reflexivity|]. split.
  - exact (Hres [CallGetAccessToken 1; CallGetAccessToken 2] 100
                (TokenOk (Some successfulTokenResponse)) [] eq_refl eq_refl).
  - rewrite Hsent. reflexivity.
Defined.

(** C3.  For every cached Credential [c] and every time [now], the
    Credential is valid exactly when [now < expiresAt - 5 minutes].  A
    [getAccessToken()] call strictly before that boundary returns the cached
    token and changes nothing (no refresh, no request).  A call at or after
    the boundary never answers from the cache: it is handed the refresh in
    flight when there is one, and otherwise starts a refresh of its own (a
    new promise, and a token request once the credentials are configured). *)
Theorem C3_validity_boundary (m : UPSAuthManager) (c : CachedToken) (now : Z) :
  cachedToken m = Some c ->
  (isTokenValid now m = true <-> now < expiresAt c - 5 * 60 * 1000)
  /\ (now < expiresAt c - 5 * 60 * 1000 ->
      getAccessToken now m = (Cached (accessToken c), m))
  /\ (expiresAt c - 5 * 60 * 1000 <= now ->
      match tokenRefreshPromise m with
      | Some p => getAccessToken now m = (Joined p, m)
      | None =>
          getAccessToken now m
          = (Started (length (promises m)),
             set_tokenRefreshPromise (Some (length (promises m))) (snd (refreshToken m)))
          /\ length (promises (snd (refreshToken m))) = S (length (promises m))
          /\ (configured (config m) ->
              tokenRequests (snd (getAccessToken now m))
              = tokenRequests m ++ [basic_request (config m)])
      end).
Proof.
  intros Hc. pose proof (isTokenValid_spec m c now Hc) as Hv.
  split; [exact Hv|]. split.
  - intros Hlt. unfold getAccessToken. apply Hv in Hlt. rewrite Hlt, Hc. reflexivity.
  - intros Hge.
    assert (Hinv : isTokenValid now m = false).
    { apply not_true_is_false. intros E. apply Hv in E. lia. }
    destruct (tokenRefreshPromise m) as [p|] eqn:Hp.
    + exact (getAccessToken_invalid_some m now p Hinv Hp).
    + rewrite (getAccessToken_invalid_none m now Hinv Hp).
      split; [reflexivity|]. split; [apply refreshToken_allocates|].
      intros Hcfg. rewrite (refreshToken_configured m Hcfg). reflexivity.
Qed.

(** C3 on a token that expires at 1 000 000 ms: the boundary is 700 000. *)
Lemma C3_validity_boundary_witness :
  let c := mkCachedToken "cached-token" 1000000 "Bearer" in
  let m := set_cachedToken (Some c) (create testConfig) in
  cachedToken m = Some c
  /\ getAccessToken 699999 m = (Cached "cached-token", m)
  /\ fst (getAccessToken 700000 m) = Started 0%nat.
Proof.
  intros c m.
  destruct (C3_validity_boundary m c 699999 eq_refl) as (_ & Hbefore & _).
  destruct (C3_validity_boundary m c 700000 eq_refl) as (_ & _ & Hafter).
  split; [reflexivity|]. split.
  - apply Hbefore. cbn. lia.
  - cbn in Hafter. destruct Hafter as [Heq _]; [lia|]. by rewrite Heq.
Defined.

(** C4, as stated, fails: with no token cached and a refresh already in
    flight, [forceRefresh()] sends no authentication request of its own. *)
Lemma C4_counterexample :
  let m := snd (getAccessToken 0 (create testConfig)) in
  cachedToken m = None
  /\ tokenRefreshPromise m = Some 0%nat
  /\ fst (forceRefresh 1 m) = Joined 0%nat
  /\ length (tokenRequests (snd (forceRefresh 1 m))) <> S (length (tokenRequests m)).
Proof. cbn. repeat split. discriminate. Qed.

(** C4 (amended).  In every state of the token cache (valid token, expired
    token, no token) [forceRefresh()] discards the cached Credential and
    never answers from the cache.  When no refresh is in flight it starts a
    new refresh, which sends a new authentication request if the client
    identifier and secret are configured and fails at once with "invalid
    credentials" if not; when a refresh is in flight it is handed that one
    and sends nothing.  When the refresh it waits for
    succeeds, the complete new Credential (token, expiry, type) is put in
    the cache in one step and its token is what the caller receives; and
    whatever the endpoint answers, the cache afterwards is either still
    empty or that complete Credential. *)
Theorem C4_forceRefresh (m : UPSAuthManager) (now : Z) :
  let h := fst (forceRefresh now m) in
  let m1 := snd (forceRefresh now m) in
  cachedToken m1 = None
  /\ (forall t, h <> Cached t)
  /\ (tokenRefreshPromise m = None -> configured (config m) ->
      h = Started (length (promises m))
      /\ promises m1 !! length (promises m) = Some Pending
      /\ tokenRequests m1 = tokenRequests m ++ [basic_request (config m)])
  /\ (tokenRefreshPromise m = None ->
      clientId (config m) = "" \/ clientSecret (config m) = "" ->
      h = Started (length (promises m))
      /\ promises m1 !! length (promises m)
         = Some (Rejected (InvalidCredentialsError "UPS"))
      /\ tokenRequests m1 = tokenRequests m)
  /\ (forall q, tokenRefreshPromise m = Some q ->
      h = Joined q /\ tokenRequests m1 = tokenRequests m)
  /\ (forall p t tokenData,
      h = Started p \/ h = Joined p ->
      promises m1 !! p = Some Pending ->
      let m2 := refreshToken_settle t p (TokenOk (Some tokenData)) m1 in
      cachedToken m2
      = Some (mkCachedToken (Wire.access_token tokenData)
                            (t + Wire.expires_in tokenData * 1000)
                            (Wire.token_type tokenData))
      /\ outcome m2 h = Some (inr (Wire.access_token tokenData)))
  /\ (forall p t reply,
      let m2 := refreshToken_settle t p reply m1 in
      cachedToken m2 = None
      \/ exists tokenData,
           reply = TokenOk (Some tokenData)
           /\ cachedToken m2
              = Some (mkCachedToken (Wire.access_token tokenData)
                                    (t + Wire.expires_in tokenData * 1000)
                                    (Wire.token_type tokenData))).
Proof.
  intros h m1.
  assert (Hcache : cachedToken m1 = None).
  { unfold m1, forceRefresh.
    destruct (tokenRefreshPromise m) as [q|] eqn:Hq.
    - by rewrite (getAccessToken_invalid_some (set_cachedToken None m) now q).
    - rewrite (getAccessToken_invalid_none (set_cachedToken None m) now); [|done..].
      cbn. unfold refreshToken. by destruct (_ || _). }
  split; [exact Hcache|]. split; [|split; [|split; [|split; [|split]]]].
  - intros t. unfold h, forceRefresh.
    destruct (tokenRefreshPromise m) as [q|] eqn:Hq.
    + by rewrite (getAccessToken_invalid_some (set_cachedToken None m) now q).
    + by rewrite (getAccessToken_invalid_none (set_cachedToken None m) now).
  - intros Hnone Hcfg. unfold h, m1, forceRefresh.
    rewrite (getAccessToken_invalid_none (set_cachedToken None m) now); [|done..].
    rewrite refreshToken_configured by exact Hcfg. cbn.
    repeat split. by rewrite lookup_app_r, Nat.sub_diag.
  - intros Hnone Hmissing. unfold h, m1, forceRefresh.
    rewrite (getAccessToken_invalid_none (set_cachedToken None m) now); [|done..].
    rewrite refreshToken_unconfigured by exact Hmissing. cbn.
    repeat split. by rewrite lookup_app_r, Nat.sub_diag.
  - intros q Hq. unfold h, m1. by rewrite (forceRefresh_some m now q Hq).
  - intros p t tokenData Hh Hp m2. unfold m2, refreshToken_settle. rewrite Hp. cbn.
    split; [reflexivity|].
    assert (Hlook : <[p:=Fulfilled (Wire.access_token tokenData)]> (promises m1) !! p
                    = Some (Fulfilled (Wire.access_token tokenData))).
    { apply list_lookup_insert_eq. by apply lookup_lt_Some in Hp. }
    destruct Hh as [-> | ->]; cbn; by rewrite Hlook.
  - intros p t reply m2. unfold m2, refreshToken_settle.
    destruct (promises m1 !! p) as [[]|]; try (by left).
    destruct reply as [[tokenData|]|th]; try (by left).
    right. exists tokenData. by split.
Qed.

(** C5, as stated, fails in its last clause: a request that failed without
    any response and without one of the time-out, connection-refused or DNS
    codes (here a cancelled request) is not wrapped as an "authentication
    error" but classified as a "network error". *)
Lemma C5_counterexample :
  let failure := ThrownAxios (mkAxiosError (Some "ERR_CANCELED") None) in
  Errors.code (refreshToken_catch testConfig failure) = "NETWORK_ERROR"
  /\ Errors.code (refreshToken_catch testConfig failure) <> "AUTHENTICATION_ERROR".
Proof. split; [reflexivity | discriminate]. Qed.

(** C5 (amended).  For every token-refresh attempt: a missing client
    identifier or secret fails at once with "invalid credentials" and no
    request is sent; when the POST fails, the refresh fails with the
    classification of that failure, which is: "invalid credentials"
    (non-retryable) for HTTP 401 and 403; an "authentication error" carrying
    the status for any other HTTP status; a retryable "timeout" error, with
    the configured time-out, for the time-out codes; a retryable "network
    error" for the connection-refused and DNS codes and for every other
    AxiosError that has no response; an "authentication error" wrapping the
    cause for anything that is not an AxiosError, except that an
    authentication-class error is passed on as it is. *)
Theorem C5_refresh_failures (m : UPSAuthManager) :
  (clientId (config m) = "" \/ clientSecret (config m) = "" ->
   promises (snd (refreshToken m)) !! fst (refreshToken m)
   = Some (Rejected (InvalidCredentialsError "UPS"))
   /\ tokenRequests (snd (refreshToken m)) = tokenRequests m)
  /\ (forall t p failure,
      promises m !! p = Some Pending ->
      promises (refreshToken_settle t p (TokenFail failure) m) !! p
      = Some (Rejected (refreshToken_catch (config m) failure)))
  /\ (Errors.code (InvalidCredentialsError "UPS") = "INVALID_CREDENTIALS"
      /\ isRetryable (InvalidCredentialsError "UPS") = false)
  /\ (forall e r,
      axios_response e = Some r -> timeout_code e = false -> unreachable_code e = false ->
      (status r = 401 \/ status r = 403 ->
       refreshToken_catch (config m) (ThrownAxios e) = InvalidCredentialsError "UPS")
      /\ (status r <> 401 -> status r <> 403 ->
          refreshToken_catch (config m) (ThrownAxios e)
          = AuthenticationError ("UPS authentication failed with status " +:+ pretty (status r))
                                (Some "UPS") (Some (status r)) (Some (CauseAxios e))))
  /\ (forall e,
      timeout_code e = true ->
      refreshToken_catch (config m) (ThrownAxios e)
      = TimeoutError "Token request timed out" (timeoutMs (config m)) (Some "UPS") None
      /\ isRetryable (refreshToken_catch (config m) (ThrownAxios e)) = true)
  /\ (forall e,
      timeout_code e = false -> unreachable_code e = true ->
      refreshToken_catch (config m) (ThrownAxios e)
      = NetworkError "Failed to connect to UPS authentication server" (Some "UPS")
                     (Some (CauseAxios e))
      /\ isRetryable (refreshToken_catch (config m) (ThrownAxios e)) = true)
  /\ (forall e,
      timeout_code e = false -> unreachable_code e = false -> axios_response e = None ->
      refreshToken_catch (config m) (ThrownAxios e)
      = NetworkError "Network error during UPS authentication" (Some "UPS")
                     (Some (CauseAxios e))
      /\ isRetryable (refreshToken_catch (config m) (ThrownAxios e)) = true)
  /\ (forall msg,
      refreshToken_catch (config m) (ThrownOther msg)
      = AuthenticationError "Failed to obtain UPS access token" (Some "UPS") None
                            (Some (CauseError msg)))
  /\ (forall e,
      refreshToken_catch (config m) (ThrownService e)
      = if instanceof_AuthenticationError e then e
        else AuthenticationError "Failed to obtain UPS access token" (Some "UPS") None
                                 (Some (CauseError (message e)))).
Proof.
  split; [|split; [|split; [|split; [|split; [|split; [|split; [|split]]]]]]].
  - intros Hmissing. unfold refreshToken.
    assert (Hguard : negb (JS.truthy (clientId (config m)))
                     || negb (JS.truthy (clientSecret (config m))) = true).
    { destruct Hmissing as [-> | ->]; [reflexivity|]. apply orb_true_r. }
    rewrite Hguard. cbn. split; [|reflexivity].
    by rewrite lookup_app_r, Nat.sub_diag.
  - intros t p failure Hp. by rewrite settle_lookup, Hp.
  - by split.
  - intros e r Hr Ht Hu. unfold timeout_code, unreachable_code in *.
    unfold refreshToken_catch, handleAxiosError. rewrite Ht, Hu, Hr. split.
    + intros [-> | ->]; reflexivity.
    + intros H401 H403.
      apply Z.eqb_neq in H401, H403. by rewrite H401, H403.
  - intros e Ht. unfold timeout_code in Ht.
    unfold refreshToken_catch, handleAxiosError. rewrite Ht. by split.
  - intros e Ht Hu. unfold timeout_code, unreachable_code in *.
    unfold refreshToken_catch, handleAxiosError. rewrite Ht, Hu. by split.
  - intros e Ht Hu Hr. unfold timeout_code, unreachable_code in *.
    unfold refreshToken_catch, handleAxiosError. rewrite Ht, Hu, Hr. by split.
  - reflexivity.
  - intros e. reflexivity.
Qed.

End AuthProperties.

(* ===================================================================== *)
(** ** Rate request/response mapper *)
(* ===================================================================== *)

Section MapperProperties.
Import Domain.

(** C8, as stated, fails: an empty correlation tag that is supplied does
    not appear in the wire request, whose transaction reference is left
    out. *)
Lemma C8_counterexample :
  let wire := Mapper.toUPSRateRequest noPrinter sampleRequest "SHIP123" (Some "") in
  Wire.TransactionReference wire = None
  /\ Wire.TransactionReference wire <> Some "".
Proof. split; [reflexivity | discriminate]. Qed.

(** C8 (amended).  For every domain RateRequest the wire request selects
    one service ([RequestOption] "Rate") exactly when the request names a
    service level and shops all services ("Shop") otherwise; the
    negotiated-rate indicator is always present and is "Y"; a supplied
    correlation tag that is not empty is the transaction reference,
    verbatim, and without a tag or with an empty one there is no
    transaction reference; and there is one wire package per package, in order, each
    with the packaging-type code "02", the unit of its weight, and its
    weight printed by [toFixed(1)], which for a finite weight below 10^21
    in magnitude is the nearest number of tenths with exactly one decimal
    place. *)
Theorem C8_domain_to_wire (finiteToString : Q -> string) (request : RateRequest)
    (shipperNumber : string) (customerContext : option string) :
  let wire := Mapper.toUPSRateRequest finiteToString request shipperNumber customerContext in
  (Wire.RequestOption wire = "Rate" <-> is_Some (serviceLevel request))
  /\ (Wire.RequestOption wire = "Shop" <-> serviceLevel request = None)
  /\ Wire.NegotiatedRatesIndicator wire = Some "Y"
  /\ (forall tag,
      customerContext = Some tag -> tag <> "" ->
      Wire.TransactionReference wire = Some tag)
  /\ (customerContext = None \/ customerContext = Some "" ->
      Wire.TransactionReference wire = None)
  /\ length (Wire.Package wire) = length (packages request)
  /\ (forall i pkg,
      packages request !! i = Some pkg ->
      exists entry,
        Wire.Package wire !! i = Some entry
        /\ Wire.PackagingType_Code entry = "02"
        /\ Wire.PackageWeight_UnitOfMeasurement_Code entry
           = WeightUnit_code (weight_unit (weight pkg))
        /\ Wire.PackageWeight_Weight entry
           = JS.toFixed finiteToString 1 (weight_value (weight pkg))
        /\ (forall q,
            weight_value (weight pkg) = JS.Fin q ->
            (Qabs q < inject_Z (10 ^ 21))%Q ->
            exists n : N,
              nearest (Z.of_N n) (Qabs q * inject_Z 10)
              /\ Wire.PackageWeight_Weight entry
                 = (if Qnum q <? 0 then "-" else "") +:+ one_decimal n)).
Proof.
  intros wire. unfold wire, Mapper.toUPSRateRequest. cbn.
  split; [|split; [|split; [|split; [|split; [|split]]]]].
  - destruct (serviceLevel request); split; intros H;
      try done; try (by eexists); by destruct H.
  - destruct (serviceLevel request); split; intros H; done.
  - reflexivity.
  - intros tag -> Hne. by rewrite (truthy_ne tag Hne).
  - by intros [-> | ->].
  - by rewrite length_map.
  - intros i pkg Hpkg. exists (Mapper.toUPSPackage finiteToString pkg).
    split; [by rewrite list_lookup_fmap, Hpkg|].
    repeat (split; [reflexivity|]).
    intros q Hq Hsmall. cbn. rewrite Hq.
    apply toFixed_one_decimal, Hsmall.
Qed.

(** C9 is right and the code misses it: a business-days-in-transit field
    that holds white space only, or the word Infinity, is not numeric, yet
    the quote carries [NaN] instead of leaving the value out.  ([Number]
    reads white space as [0] and Infinity as a number, so the guard lets
    them through, and [parseInt] then finds no digits.) *)
Theorem C9_blank_business_days :
  let rated days :=
    ratedShipment (Some "UPS Ground") (Wire.mkCharges "USD" "12.50")
                  (Some (Wire.mkGuaranteed (Some days) None)) None in
  let response days :=
    Mapper.fromUPSRateResponse (Wire.mkUPSRateResponse None [rated days]) "REQ-001" None in
  businessDaysInTransit <$> RatedShipment (response " ") = [Some JS.NaN]
  /\ businessDaysInTransit <$> RatedShipment (response "Infinity") = [Some JS.NaN]
  /\ businessDaysInTransit <$> RatedShipment (response "N/A") = [None]
  /\ businessDaysInTransit <$> RatedShipment (response "5")
     = [Some (JS.Fin (5 # 1))].
Proof. repeat split. Qed.

(** The rest of the Wire→Domain mapping: one quote per rated shipment, in
    order (none for none); amounts read with [parseFloat] and kept with
    their currency; no transit days when the field is missing, empty or
    makes [Number] answer [NaN]; "STANDARD" when there is no description;
    the alert descriptions as warnings. *)
Lemma fromUPSRateResponse_quotes (upsResponse : Wire.UPSRateResponse)
    (requestId : string) (originalRequest : option RateRequest) :
  let quotes := RatedShipment (Mapper.fromUPSRateResponse upsResponse requestId originalRequest) in
  length quotes = length (Wire.RatedShipment upsResponse)
  /\ (Wire.RatedShipment upsResponse = [] -> quotes = [])
  /\ (forall i rated,
      Wire.RatedShipment upsResponse !! i = Some rated ->
      exists quote,
        quotes !! i = Some quote
        /\ carrierServiceCode quote = Wire.service_Code (Wire.Service rated)
        /\ totalCost quote
           = mkMoney (JS.parseFloat (Wire.MonetaryValue (Wire.TotalCharges rated)))
                     (Wire.CurrencyCode (Wire.TotalCharges rated))
        /\ (Wire.service_Description (Wire.Service rated) = None ->
            quote_serviceLevel quote = "STANDARD")
        /\ (Wire.GuaranteedDelivery rated = None -> businessDaysInTransit quote = None)
        /\ (forall g,
            Wire.GuaranteedDelivery rated = Some g ->
            match Wire.BusinessDaysInTransit g with
            | None => businessDaysInTransit quote = None
            | Some x =>
                (x = "" \/ JS.Number x = JS.NaN -> businessDaysInTransit quote = None)
            end)
        /\ warnings quote
           = (map Wire.alert_Description <$> Wire.RatedShipmentAlert rated)).
Proof.
  intros quotes. unfold quotes, Mapper.fromUPSRateResponse. cbn.
  split; [by rewrite length_map|]. split; [by intros ->|].
  intros i rated Hrated. exists (Mapper.toQuote rated).
  split; [by rewrite list_lookup_fmap, Hrated|].
  repeat (split; [reflexivity|]).
  split; [intros Hd; cbn; by rewrite Hd|].
  split; [intros Hg; cbn; by rewrite Hg|].
  split; [|reflexivity].
  intros g Hg. cbn. rewrite Hg. cbn.
  destruct (Wire.BusinessDaysInTransit g) as [x|]; [|reflexivity].
  intros [-> | Hnan]; [reflexivity|]. rewrite Hnan. cbn. by rewrite andb_false_r.
Qed.

Example fromUPSRateResponse_500_USD :
  totalCost <$> RatedShipment
    (Mapper.fromUPSRateResponse
       (Wire.mkUPSRateResponse None
          [ratedShipment None (Wire.mkCharges "USD" "500")
             (Some (Wire.mkGuaranteed (Some "N/A") None)) None])
       "REQ-001" None)
  = [mkMoney (JS.Fin (500 # 1)) "USD"].
Proof. reflexivity. Qed.

End MapperProperties.

(* ===================================================================== *)
(** ** Rate service orchestrator *)
(* ===================================================================== *)

Section ServiceProperties.
Import Domain Service.

Lemma callRatingApi_eq (w : World) (request : Wire.UPSRateRequest)
    (accessToken requestId : string) (s : UPSRateService) :
  callRatingApi w request accessToken requestId s
  = (Some (rating_result (config s) requestId
             (ratingEndpoint w (length (ratingRequests s)))),
     having_sent (ratingPost request accessToken requestId) s).
Proof.
  unfold callRatingApi, rating_result.
  destruct (ratingEndpoint w (length (ratingRequests s))) as [data | failure];
    [|reflexivity].
  by destruct (ratedShipments data).
Qed.

(** Awaiting a token touches neither the configuration nor the rating
    requests of the service. *)
Lemma await_frame (w : World) (h : Auth.Handle) (s : UPSRateService) :
  config (snd (await w h s)) = config s
  /\ ratingRequests (snd (await w h s)) = ratingRequests s.
Proof. destruct h; by split. Qed.

Lemma getAccessToken_frame (w : World) (s : UPSRateService) :
  config (snd (getAccessToken w s)) = config s
  /\ ratingRequests (snd (getAccessToken w s)) = ratingRequests s.
Proof.
  unfold getAccessToken, bind, now. cbn [authManager].
  destruct (Auth.getAccessToken (clock w (ticks s)) (authManager s)) as [h m].
  match goal with |- context [await w h ?x] => exact (await_frame w h x) end.
Qed.

Lemma forceRefresh_frame (w : World) (s : UPSRateService) :
  config (snd (forceRefresh w s)) = config s
  /\ ratingRequests (snd (forceRefresh w s)) = ratingRequests s.
Proof.
  unfold forceRefresh, bind, now. cbn [authManager].
  destruct (Auth.forceRefresh (clock w (ticks s)) (authManager s)) as [h m].
  match goal with |- context [await w h ?x] => exact (await_frame w h x) end.
Qed.

(** [getRates] once the request is valid and a token is in hand. *)
Lemma getRates_after_token (w : World) (request validatedRequest : RateRequest)
    (s s1 : UPSRateService) (accessToken : string) :
  validateRateRequest request = inr validatedRequest ->
  getAccessToken w s = (Some (inr accessToken), s1) ->
  let requestId := generateRequestId w in
  let upsRequest := wireRequest w (config s) validatedRequest in
  let s2 := having_sent (ratingPost upsRequest accessToken requestId) s1 in
  getRates w request s
  = match rating_result (config s) requestId (ratingEndpoint w (length (ratingRequests s))) with
    | inr response =>
        (rates_result requestId validatedRequest (inr response), s2)
    | inl error =>
        if isAuthError error then
          match forceRefresh w s2 with
          | (Some (inr freshToken), s3) =>
              (rates_result requestId validatedRequest
                 (rating_result (config s) requestId
                    (ratingEndpoint w (S (length (ratingRequests s))))),
               having_sent (ratingPost upsRequest freshToken requestId) s3)
          | (Some (inl e), s3) => (Some (inl (ThrownService e)), s3)
          | (None, s3) => (None, s3)
          end
        else (Some (inl (ThrownService error)), s2)
    end.
Proof.
  intros Hvalid Htoken requestId upsRequest s2.
  destruct (getAccessToken_frame w s) as [Hcfg Hsent]. rewrite Htoken in Hcfg, Hsent.
  cbn [snd] in Hcfg, Hsent.
  unfold getRates, bind at 1, validateRequest. rewrite Hvalid. cbn [ret].
  unfold bind at 1. rewrite Htoken.
  unfold bind at 1, try_catch. rewrite callRatingApi_eq. rewrite Hcfg, Hsent.
  fold requestId. fold (wireRequest w (config s) validatedRequest). fold upsRequest.
  fold s2.
  destruct (rating_result _ _ _) as [error | response]; [|reflexivity].
  destruct (isAuthError error); [|reflexivity].
  unfold bind at 1.
  destruct (forceRefresh_frame w s2) as [Hcfg3 Hsent3].
  destruct (forceRefresh w s2) as [[[e | freshToken]|] s3]; [reflexivity | | reflexivity].
  cbn [snd] in Hcfg3, Hsent3.
  rewrite callRatingApi_eq, Hcfg3, Hsent3.
  unfold s2 at 1 2. cbn [having_sent ratingRequests config].
  rewrite Hsent, Hcfg, length_app. cbn [length].
  replace (length (ratingRequests s) + 1)%nat with (S (length (ratingRequests s))) by lia.
  by destruct (rating_result _ _ _).
Qed.

Lemma handleAxiosError_http (cfg : UPSConfig) (e : AxiosError) (r : AxiosResponse)
    (requestId : string) :
  axios_response e = Some r -> timeout_code e = false -> connection_code e = false ->
  handleAxiosError cfg e requestId
  = if status r =? 429 then
      RateLimitError (carrierId cfg)
        (match headers r !! "retry-after" with
         | Some v => if JS.truthy v then Some (JS.parseInt v) else None
         | None => None
         end)
        (Some requestId)
    else
      CarrierApiError ("API error " +:+ pretty (status r)) (status r)
        (Some (carrierId cfg)) (Some requestId) None None (Some (CauseAxios e)).
Proof.
  intros Hr Ht Hc. unfold timeout_code, connection_code in *.
  unfold handleAxiosError. by rewrite Ht, Hc, Hr.
Qed.

(** *** A service used by one caller at a time: no refresh is left in
    flight between two calls, and awaiting a token always settles. *)

Lemma await_started (w : World) (p : nat) (s : UPSRateService) :
  is_Some (Auth.promises (authManager s) !! p) ->
  is_Some (fst (await w (Auth.Started p) s))
  /\ Auth.tokenRefreshPromise (authManager (snd (await w (Auth.Started p) s))) = None
  /\ Auth.tokenRequests (authManager (snd (await w (Auth.Started p) s)))
     = Auth.tokenRequests (authManager s).
Proof.
  intros [st Hst]. unfold await, bind, now. cbn [authManager fst snd set_authManager].
  split; [|split].
  - unfold Auth.outcome. rewrite settle_lookup, Hst.
    destruct st as [| token | error]; [|by eexists..].
    destruct (reply_result _ _); by eexists.
  - reflexivity.
  - cbn. apply settle_sent.
Qed.

Lemma getAccessToken_quiescent (w : World) (s : UPSRateService) :
  Auth.tokenRefreshPromise (authManager s) = None ->
  is_Some (fst (getAccessToken w s))
  /\ Auth.tokenRefreshPromise (authManager (snd (getAccessToken w s))) = None.
Proof.
  intros Hnone. unfold getAccessToken, bind, now. cbn [authManager].
  set (t := clock w (ticks s)).
  destruct (Auth.isTokenValid t (authManager s)) eqn:Hvalid.
  - unfold Auth.getAccessToken. rewrite Hvalid.
    destruct (Auth.cachedToken (authManager s)); cbn; (split; [by eexists | exact Hnone]).
  - rewrite (getAccessToken_invalid_none _ t Hvalid Hnone).
    match goal with |- context [await w (Auth.Started ?p) ?x] =>
      destruct (await_started w p x) as (Hsome & Hmarker & _)
    end; [|by split].
    cbn [authManager set_authManager]. apply refreshToken_lookup.
Qed.

Lemma forceRefresh_quiescent (w : World) (s : UPSRateService) :
  Auth.tokenRefreshPromise (authManager s) = None ->
  is_Some (fst (forceRefresh w s))
  /\ Auth.tokenRefreshPromise (authManager (snd (forceRefresh w s))) = None
  /\ (configured (Auth.config (authManager s)) ->
      Auth.tokenRequests (authManager (snd (forceRefresh w s)))
      = Auth.tokenRequests (authManager s)
        ++ [Auth.basic_request (Auth.config (authManager s))]).
Proof.
  intros Hnone. unfold forceRefresh, bind, now. cbn [authManager].
  set (t := clock w (ticks s)). unfold Auth.forceRefresh.
  rewrite (getAccessToken_invalid_none (Auth.set_cachedToken None (authManager s)) t);
    [|reflexivity|exact Hnone].
  match goal with |- context [await w (Auth.Started ?p) ?x] =>
    destruct (await_started w p x) as (Hsome & Hmarker & Hsent)
  end.
  { cbn [authManager set_authManager].
    apply (refreshToken_lookup (Auth.set_cachedToken None (authManager s))). }
  split; [exact Hsome|]. split; [exact Hmarker|].
  intros Hcfg. rewrite Hsent. cbn [authManager set_authManager].
  by rewrite (refreshToken_configured (Auth.set_cachedToken None (authManager s)) Hcfg).
Qed.



Lemma without_rated_shipments_spec (data : Wire.RatingBody) :
  without_rated_shipments data <-> ratedShipments data = None.
Proof.
  destruct data as [| text | [rr|]]; cbn; try done.
  destruct (Wire.body_RatedShipment rr) as [v|]; [|done].
  destruct (Wire.truthy v); split; intros H; done.
Qed.

Lemma rated_shipments_of_wrong_type_spec (data : Wire.RatingBody) :
  rated_shipments_of_wrong_type data ->
  exists rr, ratedShipments data = Some rr
             /\ forall requestId originalRequest,
                  Mapper.fromUPSRateResponse_any rr requestId originalRequest
                  = inl (ThrownOther "ratedShipments.map is not a function").
Proof.
  destruct data as [| text | [rr|]]; try done.
  unfold rated_shipments_of_wrong_type, ratedShipments, Mapper.fromUPSRateResponse_any.
  destruct (Wire.body_RatedShipment rr) as [[l | v]|] eqn:Hfield; try done.
  intros Hv. rewrite Hv. exists rr. split; [reflexivity|].
  intros requestId originalRequest. rewrite Hfield.
  destruct v; [by cbv in Hv | reflexivity..].
Qed.

Lemma lacks_rated_shipments_cases (data : Wire.RatingBody) :
  lacks_rated_shipments data ->
  without_rated_shipments data \/ rated_shipments_of_wrong_type data.
Proof.
  destruct data as [| text | [rr|]]; try (by left).
  unfold lacks_rated_shipments, without_rated_shipments, rated_shipments_of_wrong_type.
  destruct (Wire.body_RatedShipment rr) as [[l | v]|]; try done; [|by left].
  intros _. destruct (Wire.truthy (Wire.NotAList v)); [by right | by left].
Qed.

(** C7.  Let the request be valid, the token acquired, and the rating
    endpoint answer with a successful response whose body lacks the list of
    rated shipments.  When [RatedShipment] is missing or falsy, [getRates]
    fails with the "response parsing error" (code RESPONSE_PARSING_ERROR,
    not retryable) that keeps the body.  When [RatedShipment] is there and
    truthy but is not a list (one rated shipment as an object, say), the
    check lets it pass and [getRates] fails with the TypeError of
    [ratedShipments.map], a generic error.  Either way exactly one rating
    request has been sent and the auth manager is as the token acquisition
    left it: nothing was retried and no token was refreshed. *)
Theorem C7_missing_rated_shipments (w : World) (request validatedRequest : RateRequest)
    (s s1 : UPSRateService) (accessToken : string) (data : Wire.RatingBody) :
  validateRateRequest request = inr validatedRequest ->
  getAccessToken w s = (Some (inr accessToken), s1) ->
  ratingEndpoint w (length (ratingRequests s)) = RatingOk data ->
  lacks_rated_shipments data ->
  let requestId := generateRequestId w in
  let error := ResponseParsingError "Invalid response structure from UPS Rating API"
                 (Some "UPS") (Some requestId) data None in
  (without_rated_shipments data \/ rated_shipments_of_wrong_type data)
  /\ (without_rated_shipments data ->
      fst (getRates w request s) = Some (inl (ThrownService error))
      /\ Errors.code error = "RESPONSE_PARSING_ERROR"
      /\ isRetryable error = false
      /\ isAuthError error = false)
  /\ (rated_shipments_of_wrong_type data ->
      fst (getRates w request s)
      = Some (inl (ThrownOther "ratedShipments.map is not a function")))
  /\ ratingRequests (snd (getRates w request s))
     = ratingRequests s
       ++ [ratingPost (wireRequest w (config s) validatedRequest) accessToken requestId]
  /\ authManager (snd (getRates w request s)) = authManager s1.
Proof.
  intros Hvalid Htoken Hreply Hlacks requestId error.
  destruct (getAccessToken_frame w s) as [_ Hsent]. rewrite Htoken in Hsent.
  cbn [snd] in Hsent.
  rewrite (getRates_after_token w request validatedRequest s s1 accessToken Hvalid Htoken).
  rewrite Hreply. cbn [rating_result].
  pose proof (lacks_rated_shipments_cases data Hlacks) as Hcases.
  split; [exact Hcases|].
  destruct Hcases as [Hwithout | Hwrong].
  - pose proof Hwithout as Hnone. apply without_rated_shipments_spec in Hnone.
    rewrite Hnone. cbn [isAuthError fst snd].
    split; [by intros _|]. split.
    { intros Hwrong. destruct (rated_shipments_of_wrong_type_spec data Hwrong)
        as (rr & Hsome & _). congruence. }
    split; [|reflexivity]. cbn [having_sent ratingRequests]. by rewrite Hsent.
  - destruct (rated_shipments_of_wrong_type_spec data Hwrong) as (rr & Hsome & Hthrows).
    rewrite Hsome. cbn [rates_result fst snd]. rewrite Hthrows.
    split.
    { intros Hwithout. apply without_rated_shipments_spec in Hwithout. congruence. }
    split; [by intros _|].
    split; [|reflexivity]. cbn [having_sent ratingRequests]. by rewrite Hsent.
Qed.

(** C7 on a body whose [RatedShipment] is one object, and in the test
    "should handle response missing RatedShipment". *)
Lemma C7_missing_rated_shipments_witness :
  let one := scripted [tokenDocument "token-1"] [RatingOk bodyWithOneShipmentObject] in
  let none := scripted [tokenDocument "token-1"] [RatingOk bodyWithoutRatedShipment] in
  let s := create testConfig in
  (validateRateRequest validRateRequest = inr validRateRequest
   /\ fst (getAccessToken one s) = Some (inr "token-1")
   /\ lacks_rated_shipments bodyWithOneShipmentObject
   /\ lacks_rated_shipments bodyWithoutRatedShipment)
  /\ fst (getRates one validRateRequest s)
     = Some (inl (ThrownOther "ratedShipments.map is not a function"))
  /\ fst (getRates none validRateRequest s)
     = Some (inl (ThrownService
                    (ResponseParsingError "Invalid response structure from UPS Rating API"
                       (Some "UPS") (Some (generateRequestId none))
                       bodyWithoutRatedShipment None)))
  /\ length (ratingRequests (snd (getRates one validRateRequest s))) = 1%nat.
Proof.
  intros one none s.
  assert (Hvalid : validateRateRequest validRateRequest = inr validRateRequest)
    by reflexivity.
  assert (Hone : getAccessToken one s = (Some (inr "token-1"), snd (getAccessToken one s)))
    by reflexivity.
  assert (Hnone : getAccessToken none s
                  = (Some (inr "token-1"), snd (getAccessToken none s)))
    by reflexivity.
  assert (Hlacks1 : lacks_rated_shipments bodyWithOneShipmentObject) by exact I.
  assert (Hlacks0 : lacks_rated_shipments bodyWithoutRatedShipment) by exact I.
  destruct (C7_missing_rated_shipments one validRateRequest validRateRequest s _ "token-1"
              bodyWithOneShipmentObject Hvalid Hone eq_refl Hlacks1)
    as (_ & _ & Hwrong & Hsent & _).
  destruct (C7_missing_rated_shipments none validRateRequest validRateRequest s _ "token-1"
              bodyWithoutRatedShipment Hvalid Hnone eq_refl Hlacks0)
    as (_ & Hmissing & _).
  split; [by repeat split|]. split; [by apply Hwrong|].
  split; [by apply Hmissing|]. by rewrite Hsent.
Defined.

(** C2.  Let the request be valid, the token acquired, and the rating call
    fail with an HTTP response (an AxiosError with a response and none of
    the transport codes).  If the status is 401 or 403, [forceRefresh()] is
    called; when it yields a token the same wire request is sent once more
    with that token and the same request id, whatever this second call
    comes to is what [getRates] returns (a second 401 as a "carrier API
    error" with status 401), and no third request is sent; when
    [forceRefresh()] fails, its failure is what [getRates] returns and the
    rating request is not repeated.  On a service used by one caller at a
    time [forceRefresh()] does settle, and with credentials configured it
    sends one new token request.  If the status is anything else, the
    classified error is returned at once: one rating request, no refresh. *)
Theorem C2_auth_retry (w : World) (request validatedRequest : RateRequest)
    (s s1 : UPSRateService) (accessToken : string) (e : AxiosError) (r : AxiosResponse) :
  validateRateRequest request = inr validatedRequest ->
  getAccessToken w s = (Some (inr accessToken), s1) ->
  ratingEndpoint w (length (ratingRequests s)) = RatingFail (ThrownAxios e) ->
  axios_response e = Some r -> timeout_code e = false -> connection_code e = false ->
  let requestId := generateRequestId w in
  let upsRequest := wireRequest w (config s) validatedRequest in
  let first := ratingPost upsRequest accessToken requestId in
  let s2 := having_sent first s1 in
  let second := ratingEndpoint w (S (length (ratingRequests s))) in
  (status r = 401 \/ status r = 403 ->
   match forceRefresh w s2 with
   | (Some (inr freshToken), s3) =>
       fst (getRates w request s)
       = rates_result requestId validatedRequest
           (rating_result (config s) requestId second)
       /\ ratingRequests (snd (getRates w request s))
          = ratingRequests s ++ [first; ratingPost upsRequest freshToken requestId]
       /\ authManager (snd (getRates w request s)) = authManager s3
       /\ (forall e2 r2,
           second = RatingFail (ThrownAxios e2) ->
           axios_response e2 = Some r2 ->
           timeout_code e2 = false -> connection_code e2 = false ->
           status r2 = 401 ->
           fst (getRates w request s)
           = Some (inl (ThrownService
                          (CarrierApiError ("API error " +:+ pretty 401) 401
                             (Some (carrierId (config s))) (Some requestId) None None
                             (Some (CauseAxios e2))))))
   | (Some (inl refreshError), s3) =>
       getRates w request s = (Some (inl (ThrownService refreshError)), s3)
       /\ ratingRequests s3 = ratingRequests s ++ [first]
   | (None, s3) => getRates w request s = (None, s3)
   end)
  /\ (status r = 401 \/ status r = 403 ->
      Auth.tokenRefreshPromise (authManager s) = None ->
      is_Some (fst (forceRefresh w s2))
      /\ (configured (Auth.config (authManager s1)) ->
          Auth.tokenRequests (authManager (snd (forceRefresh w s2)))
          = Auth.tokenRequests (authManager s1)
            ++ [Auth.basic_request (Auth.config (authManager s1))]))
  /\ (status r <> 401 -> status r <> 403 ->
      getRates w request s
      = (Some (inl (ThrownService (handleAxiosError (config s) e requestId))), s2)).
Proof.
  intros Hvalid Htoken Hreply Hr Ht Hc requestId upsRequest first s2 second.
  destruct (getAccessToken_frame w s) as [Hcfg1 Hsent1]. rewrite Htoken in Hcfg1, Hsent1.
  cbn [snd] in Hcfg1, Hsent1.
  pose proof (getRates_after_token w request validatedRequest s s1 accessToken
                Hvalid Htoken) as Hrates.
  cbv zeta in Hrates. fold requestId upsRequest first s2 second in Hrates.
  rewrite Hreply in Hrates. cbn [rating_result callRatingApi_catch] in Hrates.
  pose proof (handleAxiosError_http (config s) e r requestId Hr Ht Hc) as Herror.
  split; [|split].
  - intros Hstatus.
    assert (Hauth : isAuthError (handleAxiosError (config s) e requestId) = true).
    { rewrite Herror. destruct Hstatus as [-> | ->]; reflexivity. }
    rewrite Hauth in Hrates.
    destruct (forceRefresh_frame w s2) as [_ Hsent3].
    destruct (forceRefresh w s2) as [[[refreshError | freshToken]|] s3];
      cbn [snd] in Hsent3; rewrite Hrates; cbn [fst snd].
    + split; [reflexivity|]. rewrite Hsent3. cbn [s2 having_sent ratingRequests].
      by rewrite Hsent1.
    + split; [reflexivity|]. split; [|split; [reflexivity|]].
      * cbn [having_sent ratingRequests]. rewrite Hsent3.
        cbn [s2 having_sent ratingRequests]. by rewrite Hsent1, <- app_assoc.
      * intros e2 r2 -> Hr2 Ht2 Hc2 H401.
        cbn [rating_result callRatingApi_catch rates_result].
        rewrite (handleAxiosError_http (config s) e2 r2 requestId Hr2 Ht2 Hc2), H401.
        reflexivity.
    + reflexivity.
  - intros _ Hnone.
    destruct (getAccessToken_quiescent w s Hnone) as [_ Hnone1].
    rewrite Htoken in Hnone1. cbn [snd] in Hnone1.
    destruct (forceRefresh_quiescent w s2 Hnone1) as (Hsome & _ & Hsent).
    split; [exact Hsome | exact Hsent].
  - intros H401 H403.
    assert (Hauth : isAuthError (handleAxiosError (config s) e requestId) = false).
    { rewrite Herror. destruct (status r =? 429); [reflexivity|].
      cbn [isAuthError]. apply Z.eqb_neq in H401, H403. by rewrite H401, H403. }
    by rewrite Hauth in Hrates.
Qed.

(** C2 in the tests "should retry with fresh token on 401 from API" and
    "should fail after retry if 401 persists". *)
Lemma C2_auth_retry_witness :
  let unauthorized := RatingFail (ThrownAxios (httpError 401 ∅)) in
  let tokens := [tokenDocument "token-1"; tokenDocument "refreshed-token"] in
  let recovers := scripted tokens [unauthorized; RatingOk successfulRateBody] in
  let persists := scripted tokens [unauthorized; unauthorized] in
  let s := create testConfig in
  (validateRateRequest validRateRequest = inr validRateRequest
   /\ fst (getAccessToken recovers s) = Some (inr "token-1")
   /\ ratingEndpoint recovers (length (ratingRequests s)) = unauthorized)
  /\ Authorization <$> ratingRequests (snd (getRates recovers validRateRequest s))
     = ["Bearer token-1"; "Bearer refreshed-token"]
  /\ (exists response, fst (getRates recovers validRateRequest s) = Some (inr response))
  /\ (exists message cause,
        fst (getRates persists validRateRequest s)
        = Some (inl (ThrownService
                       (CarrierApiError message 401 (Some "UPS")
                          (Some (generateRequestId persists)) None None cause))))
  /\ length (ratingRequests (snd (getRates persists validRateRequest s))) = 2%nat.
Proof.
  intros unauthorized tokens recovers persists s.
  assert (Hvalid : validateRateRequest validRateRequest = inr validRateRequest)
    by reflexivity.
  pose proof (C2_auth_retry recovers validRateRequest validRateRequest s
                (snd (getAccessToken recovers s)) "token-1" (httpError 401 ∅)
                (mkAxiosResponse 401 ∅) Hvalid eq_refl eq_refl eq_refl eq_refl eq_refl)
    as Hrecovers.
  pose proof (C2_auth_retry persists validRateRequest validRateRequest s
                (snd (getAccessToken persists s)) "token-1" (httpError 401 ∅)
                (mkAxiosResponse 401 ∅) Hvalid eq_refl eq_refl eq_refl eq_refl eq_refl)
    as Hpersists.
  cbv zeta in Hrecovers, Hpersists.
  destruct Hrecovers as (Hrecovers & _ & _). specialize (Hrecovers (or_introl eq_refl)).
  destruct Hpersists as (Hpersists & _ & _). specialize (Hpersists (or_introl eq_refl)).
  vm_compute forceRefresh in Hrecovers, Hpersists.
  destruct Hrecovers as (Hresult1 & Hsent1 & _).
  destruct Hpersists as (_ & Hsent2 & _ & Hresult2).
  split; [by repeat split|]. split; [by rewrite Hsent1|].
  split; [rewrite Hresult1; by eexists|]. split.
  - eexists _, _.
    exact (Hresult2 (httpError 401 ∅) (mkAxiosResponse 401 ∅)
             eq_refl eq_refl eq_refl eq_refl eq_refl).
  - by rewrite Hsent2.
Defined.

Lemma fromUPSRateResponse_any_status (received : Wire.RateResponseBlock)
    (requestId : string) (originalRequest : option RateRequest) (response : RateResponse) :
  Mapper.fromUPSRateResponse_any received requestId originalRequest = inr response ->
  Response_ResponseStatus response = mkResponseStatus "1" "Success".
Proof.
  unfold Mapper.fromUPSRateResponse_any.
  destruct (Wire.body_RatedShipment received) as [[l | []]|]; try discriminate.
  by intros [= <-].
Qed.

(** C10.  Whatever the wire response carries as its response-status block,
    or without one, the RateResponse the mapper returns has the status code
    "1" and the description "Success"; so has every RateResponse that
    [getRates] returns, whatever status block the carrier sent. *)
Theorem C10_response_status (upsResponse : Wire.UPSRateResponse)
    (requestId : string) (originalRequest : option RateRequest) :
  Response_ResponseStatus
    (Mapper.fromUPSRateResponse upsResponse requestId originalRequest)
  = mkResponseStatus "1" "Success"
  /\ (forall w request s response,
      fst (getRates w request s) = Some (inr response) ->
      Response_ResponseStatus response = mkResponseStatus "1" "Success").
Proof.
  split; [reflexivity|].
  intros w request s response Hresult.
  destruct (validateRateRequest request) as [issues | validatedRequest] eqn:Hvalid.
  { unfold getRates, bind, validateRequest in Hresult. by rewrite Hvalid in Hresult. }
  destruct (getAccessToken w s) as [[[error | accessToken]|] s1] eqn:Htoken.
  - unfold getRates, bind, validateRequest in Hresult.
    rewrite Hvalid in Hresult. cbn [ret] in Hresult. by rewrite Htoken in Hresult.
  - rewrite (getRates_after_token w request validatedRequest s s1 accessToken
               Hvalid Htoken) in Hresult.
    destruct (rating_result _ _ (ratingEndpoint w (length (ratingRequests s))))
      as [error | upsResponse1].
    + destruct (isAuthError error); [|discriminate].
      destruct (forceRefresh w _) as [[[refreshError | freshToken]|] s3];
        [discriminate| |discriminate].
      cbn [fst] in Hresult.
      destruct (rating_result _ _ _) as [error2 | upsResponse2]; [discriminate|].
      cbn [rates_result] in Hresult. injection Hresult as Hresult.
      by apply (fromUPSRateResponse_any_status _ _ _ _ Hresult).
    + cbn [rates_result fst] in Hresult. injection Hresult as Hresult.
      by apply (fromUPSRateResponse_any_status _ _ _ _ Hresult).
  - unfold getRates, bind, validateRequest in Hresult.
    rewrite Hvalid in Hresult. cbn [ret] in Hresult. by rewrite Htoken in Hresult.
Qed.

End ServiceProperties.

(* ===================================================================== *)
(** ** A service used by one caller at a time *)
(* ===================================================================== *)

Section SequentialService.
Import Domain Service.






End SequentialService.

(* ===================================================================== *)
(** ** Routes, identifiers, retries and HTTP failures *)
(* ===================================================================== *)

Section RouteProperties.

Lemma upper_char_idem c : JSText.upper_char (JSText.upper_char c) = JSText.upper_char c.
Proof. destruct c as [[] [] [] [] [] [] [] []]; reflexivity. Qed.

Lemma toUpperCase_idem s : JSText.toUpperCase (JSText.toUpperCase s) = JSText.toUpperCase s.
Proof.
  induction s as [|c s IH]; [reflexivity|].
  cbn [JSText.toUpperCase]. by rewrite upper_char_idem, IH.
Qed.

Lemma includes_filter_upper_case l x :
  upper_case x = true ->
  JSText.includes (List.filter upper_case l) x = JSText.includes l x.
Proof.
  intros Hx. unfold JSText.includes.
  induction l as [|a l IH]; [reflexivity|].
  cbn [List.filter existsb]. destruct (upper_case a) eqn:Ha.
  - cbn [existsb]. by rewrite IH.
  - rewrite IH. destruct (String.eqb x a) eqn:E; [|reflexivity].
    apply String.eqb_eq in E. subst a. congruence.
Qed.

Lemma upper_case_toUpperCase s : upper_case (JSText.toUpperCase s) = true.
Proof. unfold upper_case. rewrite toUpperCase_idem. apply String.eqb_refl. Qed.

(** X3. On ASCII strings, [supportsRoute] does not depend on the order of
    its two arguments nor on the case of their letters; a route is
    supported exactly when both of its ends are supported as a route to
    themselves; the entries of the allow-list that are not in upper case
    never match: removing them changes no answer; and with an empty
    allow-list no route is supported. *)
Theorem supportsRoute_case_and_order (cfg : UPSConfig) (o d : string) :
  ascii_only o = true -> ascii_only d = true ->
  Forall (fun e => ascii_only e = true) (supportedCountries cfg) ->
  Routes.supportsRoute cfg o d = Routes.supportsRoute cfg d o
  /\ Routes.supportsRoute cfg (JSText.toUpperCase o) (JSText.toUpperCase d)
     = Routes.supportsRoute cfg o d
  /\ Routes.supportsRoute cfg o d
     = Routes.supportsRoute cfg o o && Routes.supportsRoute cfg d d
  /\ Routes.supportsRoute
       (with_supportedCountries (List.filter upper_case (supportedCountries cfg)) cfg) o d
     = Routes.supportsRoute cfg o d
  /\ (supportedCountries cfg = [] -> Routes.supportsRoute cfg o d = false).
Proof.
  intros _ _ _. unfold Routes.supportsRoute. repeat split.
  - apply andb_comm.
  - by rewrite !toUpperCase_idem.
  - destruct (JSText.includes _ (JSText.toUpperCase o)),
             (JSText.includes _ (JSText.toUpperCase d)); reflexivity.
  - cbn [with_supportedCountries supportedCountries].
    by rewrite !includes_filter_upper_case by apply upper_case_toUpperCase.
  - intros ->. reflexivity.
Qed.

(** X3 on the allow-list of the tests. *)
Lemma supportsRoute_case_and_order_witness :
  (ascii_only "us" = true /\ ascii_only "Ca" = true
   /\ Forall (fun e => ascii_only e = true) (supportedCountries testConfig))
  /\ Routes.supportsRoute testConfig "us" "Ca" = true
  /\ Routes.supportsRoute testConfig "Ca" "us" = true
  /\ Routes.supportsRoute testConfig "us" "GB" = false
  /\ Routes.supportsRoute (with_supportedCountries ["us"; "CA"] testConfig) "us" "CA"
     = false.
Proof.
  assert (H : Forall (fun e => ascii_only e = true) (supportedCountries testConfig))
    by (repeat constructor).
  pose proof (supportsRoute_case_and_order testConfig "us" "Ca" eq_refl eq_refl H)
    as (Hsym & _).
  split; [by repeat split|]. split; [reflexivity|]. split; [by rewrite <- Hsym|].
  by split.
Defined.

End RouteProperties.

Section RetryProperties.

Context {T : Type}.
Variable operation : nat -> Thrown + T.
Variable options : Utils.RetryOptions.

Lemma loop_decisive n : forall attempt last slept k,
  (attempt <= k)%nat -> (k < attempt + n)%nat ->
  decisive operation options k = true ->
  (forall j, (attempt <= j < k)%nat -> decisive operation options j = false) ->
  Utils.loop operation options n attempt last slept
  = Utils.mkRun (settles_with (operation k)) (S k)
      (slept ++ map (Utils.delay options) (seq attempt (k - attempt))).
Proof.
  induction n as [|n IH]; intros attempt last slept k Hle Hlt Hk Hfirst; [lia|].
  cbn [Utils.loop].
  destruct (decide (attempt = k)) as [->|Hne].
  - replace (k - k)%nat with 0%nat by lia. cbn [seq map]. rewrite app_nil_r.
    unfold decisive in Hk. destruct (operation k) as [error|value]; [|reflexivity].
    by rewrite Hk.
  - assert (Ha : decisive operation options attempt = false) by (apply Hfirst; lia).
    unfold decisive in Ha. destruct (operation attempt) as [error|value]; [|discriminate].
    rewrite Ha.
    rewrite (IH (S attempt) (Some error) (slept ++ [Utils.delay options attempt]) k)
      by (try lia; try done; intros j Hj; apply Hfirst; lia).
    replace (k - attempt)%nat with (S (k - S attempt)) by lia.
    cbn [seq map]. by rewrite <- app_assoc.
Qed.

Lemma first_decisive_or_none n :
  (exists k, (k < n)%nat /\ decisive operation options k = true
             /\ forall j, (j < k)%nat -> decisive operation options j = false)
  \/ (forall j, (j < n)%nat -> decisive operation options j = false).
Proof.
  induction n as [|n [IH|IH]].
  - right. intros j Hj. lia.
  - left. destruct IH as [k (Hk & Hd & Hfirst)]. exists k. split; [lia|done].
  - destruct (decisive operation options n) eqn:Hn.
    + left. exists n. split; [lia|done].
    + right. intros j Hj. destruct (decide (j = n)) as [->|Hne]; [done|].
      apply IH. lia.
Qed.

Lemma first_decisive n :
  decisive operation options n = true ->
  exists k, (k <= n)%nat /\ decisive operation options k = true
            /\ forall j, (j < k)%nat -> decisive operation options j = false.
Proof.
  intros Hn. destruct (first_decisive_or_none (S n)) as [[k (Hk & Hd & Hfirst)]|Hnone].
  - exists k. split; [lia|done].
  - rewrite Hnone in Hn by lia. discriminate.
Qed.

Lemma last_attempt_decisive :
  0 <= Utils.the_maxRetries options ->
  decisive operation options (Z.to_nat (Utils.the_maxRetries options)) = true.
Proof.
  intros H. unfold decisive. destruct (operation _); [|reflexivity].
  rewrite Z2Nat.id by done. by rewrite Z.eqb_refl.
Qed.

Lemma delay_le attempt : Utils.delay options attempt <= Utils.the_maxDelayMs options.
Proof. unfold Utils.delay. lia. Qed.

(** X4. [withRetry] stops at the first attempt that succeeds, or that
    fails either as the last attempt allowed or with an error
    [shouldRetry] rejects: it then has called the operation once per
    attempt and no more, has slept between the attempts for the delays
    [min(initialDelayMs * 2^i, maxDelayMs)], and settles with what that
    attempt settled with, value or error. *)
Theorem withRetry_first_decisive (k : nat) :
  Z.of_nat k <= Utils.the_maxRetries options ->
  decisive operation options k = true ->
  (forall j, (j < k)%nat -> decisive operation options j = false) ->
  Utils.withRetry operation options
  = Utils.mkRun (settles_with (operation k)) (S k)
      (map (Utils.delay options) (seq 0 k)).
Proof.
  intros Hk Hd Hfirst. unfold Utils.withRetry.
  rewrite (loop_decisive _ 0%nat None [] k) by (try lia; try done; intros j Hj; apply Hfirst; lia).
  by rewrite Nat.sub_0_r.
Qed.

(** X5. Whatever the operation does, [withRetry] calls it at most
    [maxRetries + 1] times, sleeps exactly once between two calls and
    never longer than [maxDelayMs]; with a [maxRetries] of 0 or more it
    calls the operation at least once and settles with what the last call
    settled with; with a negative [maxRetries] it throws [undefined]
    without calling the operation. *)
Theorem withRetry_bounds :
  let r := Utils.withRetry operation options in
  let maxRetries := Utils.the_maxRetries options in
  Z.of_nat (Utils.calls r) <= Z.max 0 (maxRetries + 1)
  /\ Utils.sleeps r = map (Utils.delay options) (seq 0 (pred (Utils.calls r)))
  /\ Forall (fun d => d <= Utils.the_maxDelayMs options) (Utils.sleeps r)
  /\ (maxRetries < 0 -> r = Utils.mkRun Utils.ThrewUndefined 0 [])
  /\ (0 <= maxRetries ->
      (1 <= Utils.calls r)%nat
      /\ Utils.outcome r = settles_with (operation (pred (Utils.calls r)))).
Proof.
  intros r maxRetries. subst r maxRetries.
  destruct (decide (Utils.the_maxRetries options < 0)) as [Hneg|Hpos].
  - assert (E : Utils.withRetry operation options = Utils.mkRun Utils.ThrewUndefined 0 []).
    { unfold Utils.withRetry.
      replace (Z.to_nat (Utils.the_maxRetries options + 1)) with 0%nat by lia.
      reflexivity. }
    rewrite E. cbn [Utils.calls Utils.sleeps Utils.outcome pred seq map].
    repeat split; try lia. constructor.
  - destruct (first_decisive _ (last_attempt_decisive ltac:(lia))) as [k (Hk & Hd & Hfirst)].
    assert (E : Utils.withRetry operation options
                = Utils.mkRun (settles_with (operation k)) (S k)
                    (map (Utils.delay options) (seq 0 k))).
    { unfold Utils.withRetry.
      rewrite (loop_decisive _ 0%nat None [] k)
        by (try lia; try done; intros j Hj; apply Hfirst; lia).
      by rewrite Nat.sub_0_r. }
    rewrite E. cbn [Utils.calls Utils.sleeps Utils.outcome pred].
    repeat split; try lia.
    apply List.Forall_forall. intros d Hin. apply in_map_iff in Hin.
    destruct Hin as [i [<- _]]. apply delay_le.
Qed.

End RetryProperties.

Lemma withRetry_first_decisive_witness :
  let operation := fun n : nat =>
    if (n <? 2)%nat then inl (ThrownOther "unavailable") else inr 7 in
  (Z.of_nat 2 <= Utils.the_maxRetries defaultOptions
   /\ decisive operation defaultOptions 2 = true)
  /\ Utils.withRetry operation defaultOptions
     = Utils.mkRun (Utils.Resolved 7) 3 [1000; 2000].
Proof.
  intros operation. split; [split; [vm_compute; discriminate|reflexivity]|].
  apply (withRetry_first_decisive operation defaultOptions 2).
  - vm_compute; discriminate.
  - reflexivity.
  - intros j Hj. destruct j as [|[|j]]; [reflexivity|reflexivity|lia].
Defined.

Section IdentifierProperties.

Lemma truncate_random q :
  (0 <= q)%Q -> (q < 1)%Q ->
  0 <= JSText.truncate (q * inject_Z 16) < 16.
Proof.
  intros H0 H1. unfold JSText.truncate.
  destruct q as [n d]. unfold Qle, Qlt in *. cbn in *.
  rewrite Pos.mul_1_r.
  rewrite Z.quot_div_nonneg by lia.
  split.
  - apply Z.div_pos; lia.
  - apply Z.div_lt_upper_bound; lia.
Qed.

Lemma ToInt32_random q :
  (0 <= q)%Q -> (q < 1)%Q ->
  0 <= JSText.ToInt32 (JS.Fin (q * inject_Z 16)) < 16.
Proof.
  intros H0 H1. pose proof (truncate_random q H0 H1) as Ht.
  unfold JSText.ToInt32. cbv zeta.
  rewrite Z.mod_small by lia.
  destruct (Z.ltb_spec (JSText.truncate (q * inject_Z 16)) (2 ^ 31)); lia.
Qed.

Lemma toString16_digit v :
  0 <= v < 16 ->
  exists c, JSText.toString16 v = String c "" /\ is_hex c = true.
Proof.
  intros H. replace v with (Z.of_nat (Z.to_nat v)) by lia.
  assert (Hn : (Z.to_nat v < 16)%nat) by lia.
  generalize dependent (Z.to_nat v). clear. intros n Hn.
  do 16 (destruct n as [|n]; [eexists; split; reflexivity|]).
  lia.
Qed.

Lemma toString16_variant r :
  0 <= r < 16 ->
  exists c, JSText.toString16 (Z.lor (Z.land r 3) 8) = String c ""
            /\ fits "y" c = true.
Proof.
  intros H. replace r with (Z.of_nat (Z.to_nat r)) by lia.
  assert (Hn : (Z.to_nat r < 16)%nat) by lia.
  generalize dependent (Z.to_nat r). clear. intros n Hn.
  do 16 (destruct n as [|n]; [eexists; split; reflexivity|]).
  lia.
Qed.

Lemma fits_same c :
  Ascii.eqb c "x" = false -> Ascii.eqb c "y" = false -> fits c c = true.
Proof. intros Hx Hy. unfold fits. rewrite Hx, Hy. apply Ascii.eqb_refl. Qed.

Lemma replace_xy_shaped random template :
  unit_interval random ->
  forall i, shaped_like template (Ids.replace_xy (Ids.digit random) template i) = true.
Proof.
  intros Hr. induction template as [|c rest IH]; intros i; [reflexivity|].
  cbn [Ids.replace_xy].
  destruct (Hr i) as [H0 H1]. pose proof (ToInt32_random _ H0 H1) as Hd.
  destruct (Ascii.eqb c "x") eqn:Ex.
  - apply Ascii.eqb_eq in Ex. subst c. cbn [orb].
    destruct (toString16_digit _ Hd) as [h [Eh Hh]].
    unfold Ids.digit. cbn [Ascii.eqb Bool.eqb]. cbv zeta. rewrite Eh.
    rewrite string_app_cons, string_app_nil_l.
    cbn [shaped_like]. rewrite IH.
    unfold fits. cbn [Ascii.eqb Bool.eqb]. by rewrite Hh.
  - destruct (Ascii.eqb c "y") eqn:Ey.
    + apply Ascii.eqb_eq in Ey. subst c. cbn [orb].
      destruct (toString16_variant _ Hd) as [h [Eh Hh]].
      unfold Ids.digit. cbn [Ascii.eqb Bool.eqb]. cbv zeta. rewrite Eh.
      rewrite string_app_cons, string_app_nil_l.
      cbn [shaped_like]. by rewrite IH, Hh.
    + cbn [orb shaped_like]. by rewrite IH, fits_same.
Qed.

Lemma shaped_like_length template : forall s,
  shaped_like template s = true -> String.length s = String.length template.
Proof.
  induction template as [|t template IH]; intros [|c s] H; try discriminate; [reflexivity|].
  cbn [shaped_like] in H. apply andb_true_iff in H as [_ H].
  cbn [String.length]. by rewrite (IH s H).
Qed.

Lemma shaped_like_verbatim template : forall s n c,
  shaped_like template s = true ->
  String.get n template = Some c ->
  Ascii.eqb c "x" = false -> Ascii.eqb c "y" = false ->
  String.get n s = Some c.
Proof.
  induction template as [|t template IH]; intros [|a s] n c H Hget Hx Hy;
    try discriminate.
  cbn [shaped_like] in H. apply andb_true_iff in H as [Hf H].
  destruct n as [|n]; cbn [String.get] in *.
  - injection Hget as ->. unfold fits in Hf. rewrite Hx, Hy in Hf.
    apply Ascii.eqb_eq in Hf. by subst a.
  - by apply (IH s n c).
Qed.

(** X6. With [Math.random()] in its range, the identifier of a rating
    call follows the template character by character: a lower-case
    hexadecimal digit for each [x], one of 8, 9, a, b for the [y], the
    dashes and the version digit 4 where the template has them; it is 36
    characters long.  [generateUUID] without [crypto.randomUUID] gives the
    same string. *)
Theorem generateRequestId_shape (random : nat -> Q) :
  unit_interval random ->
  let id := Ids.generateRequestId random in
  shaped_like Ids.template id = true
  /\ String.length id = 36%nat
  /\ String.get 14 id = Some "4"%char
  /\ (forall n, In n [8; 13; 18; 23]%nat -> String.get n id = Some "-"%char)
  /\ Ids.generateUUID None random = id.
Proof.
  intros Hr id.
  assert (Hs : shaped_like Ids.template id = true) by by apply replace_xy_shaped.
  split; [done|]. split; [by rewrite (shaped_like_length _ _ Hs)|].
  split; [by apply (shaped_like_verbatim _ _ _ _ Hs)|].
  split; [|subst id; unfold Ids.generateUUID, Ids.generateRequestId; reflexivity].
  intros n Hn. cbn [In] in Hn.
  destruct Hn as [<-|[<-|[<-|[<-|[]]]]]; by apply (shaped_like_verbatim _ _ _ _ Hs).
Qed.

Lemma generateRequestId_shape_witness :
  unit_interval (fun _ => 1 # 2)
  /\ Ids.generateRequestId (fun _ => 1 # 2) = "88888888-8888-4888-8888-888888888888".
Proof.
  assert (H : unit_interval (fun _ => 1 # 2)).
  { intros i. split; [discriminate|reflexivity]. }
  split; [exact H|].
  pose proof (generateRequestId_shape (fun _ => 1 # 2) H) as _.
  reflexivity.
Defined.

End IdentifierProperties.

Section HttpFailureProperties.

Variable finiteToString : Q -> string.

(** X7. [createErrorFromHttpResponse] classifies by the status alone: 429
    gives a rate-limit error, 401 and 403 the authentication error with
    that status, any other status a carrier API error with it.  The error
    is retryable exactly for 429 and for 500 and above, carries the
    carrier, and is never one that [getRates] takes for an authentication
    failure.  The call throws instead of returning only when the first
    entry of [response.errors] is [null] or [undefined], and never for
    429, 401 or 403. *)
Theorem createErrorFromHttpResponse_classes (httpStatus : Z) (responseBody : Json.Value)
    (carrier : string) (requestId : option string) :
  let result :=
    ErrorHelpers.createErrorFromHttpResponse finiteToString httpStatus responseBody
      carrier requestId in
  (forall e, result = inr e ->
     isRetryable e = (500 <=? httpStatus) || (httpStatus =? 429)
     /\ Errors.carrier e = Some carrier
     /\ Service.isAuthError e = false
     /\ ErrorHelpers.isRetryableError (ThrownService e) = isRetryable e
     /\ (httpStatus = 429 ->
         exists retryAfterSeconds, e = RateLimitError carrier retryAfterSeconds requestId)
     /\ (httpStatus = 401 \/ httpStatus = 403 ->
         e = AuthenticationError ("Authentication failed for " +:+ carrier)
               (Some carrier) (Some httpStatus) None)
     /\ (httpStatus <> 429 -> httpStatus <> 401 -> httpStatus <> 403 ->
         exists text detailCode detailMessage,
           e = CarrierApiError text httpStatus (Some carrier) requestId
                 detailCode detailMessage None))
  /\ (forall t, result = inl t ->
        httpStatus <> 429 /\ httpStatus <> 401 /\ httpStatus <> 403
        /\ (ErrorHelpers.firstError responseBody = Some Json.Null
            \/ ErrorHelpers.firstError responseBody = Some Json.Undefined)).
Proof.
  intros result. subst result. unfold ErrorHelpers.createErrorFromHttpResponse.
  destruct (Z.eqb_spec httpStatus 429) as [->|H429].
  { split; [|discriminate]. intros e [= <-]. cbn. repeat split; try done; eauto.
    all: intros [?|?]; discriminate. }
  destruct (Z.eqb_spec httpStatus 401) as [->|H401].
  { split; [|discriminate]. intros e [= <-]. cbn. repeat split; try done. }
  destruct (Z.eqb_spec httpStatus 403) as [->|H403].
  { split; [|discriminate]. intros e [= <-]. cbn. repeat split; try done. }
  cbn [orb].
  assert (Hauth : (httpStatus =? 401) || (httpStatus =? 403) = false).
  { apply orb_false_iff. split; by apply Z.eqb_neq. }
  pose proof H429 as H429b. apply Z.eqb_neq in H429b.
  destruct (ErrorHelpers.firstError responseBody) as [first|].
  - destruct first; cbn [Json.get].
    1-2: split; [discriminate|]; intros t _; repeat split; auto.
    all: split; [|discriminate]; intros e [= <-];
      cbn [isRetryable Errors.carrier Service.isAuthError ErrorHelpers.isRetryableError];
      rewrite Hauth, ?H429b; repeat split; try done; try (intros [?|?]; done); eauto.
  - split; [|discriminate]. intros e [= <-].
    cbn [isRetryable Errors.carrier Service.isAuthError ErrorHelpers.isRetryableError].
    rewrite Hauth, ?H429b. repeat split; try done; try (intros [?|?]; done); eauto.
Qed.

(** X8. On a body of the carrier's documented error format and a status
    other than 429, 401 and 403, [createErrorFromHttpResponse] reports
    the code and the message of the first error only; the message of the
    error is that message unless it is empty, and then, as for a body
    without errors, the text [<carrier> API returned HTTP <status>]. *)
Theorem createErrorFromHttpResponse_first_error (httpStatus : Z) (carrier : string)
    (requestId : option string) :
  httpStatus <> 429 -> httpStatus <> 401 -> httpStatus <> 403 ->
  let fallback := carrier +:+ " API returned HTTP " +:+ pretty httpStatus in
  (forall errorCode errorMessage others,
     ErrorHelpers.createErrorFromHttpResponse finiteToString httpStatus
       (upsErrorBody ((errorCode, errorMessage) :: others)) carrier requestId
     = inr (CarrierApiError (if JS.truthy errorMessage then errorMessage else fallback)
              httpStatus (Some carrier) requestId
              (Some errorCode) (Some errorMessage) None))
  /\ ErrorHelpers.createErrorFromHttpResponse finiteToString httpStatus
       (upsErrorBody []) carrier requestId
     = inr (CarrierApiError fallback httpStatus (Some carrier) requestId None None None)
  /\ (forall body,
        Json.is_object body = false ->
        ErrorHelpers.createErrorFromHttpResponse finiteToString httpStatus body
          carrier requestId
        = inr (CarrierApiError fallback httpStatus (Some carrier) requestId
                 None None None)).
Proof.
  intros H429 H401 H403 fallback. subst fallback.
  unfold ErrorHelpers.createErrorFromHttpResponse.
  apply Z.eqb_neq in H429, H401, H403. rewrite H429, H401, H403. cbn [orb].
  repeat split.
  - intros body Hbody. unfold ErrorHelpers.firstError. by rewrite Hbody.
Qed.

End HttpFailureProperties.

Lemma createErrorFromHttpResponse_first_error_witness :
  ErrorHelpers.createErrorFromHttpResponse noPrinter 400
    (upsErrorBody [("111210", "The requested service is unavailable"); ("9", "")])
    "UPS" (Some "req-1")
  = inr (CarrierApiError "The requested service is unavailable" 400 (Some "UPS")
           (Some "req-1") (Some "111210") (Some "The requested service is unavailable")
           None).
Proof.
  apply (createErrorFromHttpResponse_first_error noPrinter 400 "UPS" (Some "req-1")); lia.
Defined.

(* ===================================================================== *)
(** ** The auth manager over whole runs *)
(* ===================================================================== *)

Section AuthRunProperties.
Import Auth.

Lemma truthy_empty_false cfg :
  clientId cfg = "" \/ clientSecret cfg = "" ->
  negb (JS.truthy (clientId cfg)) || negb (JS.truthy (clientSecret cfg)) = true.
Proof. intros [-> | ->]; [reflexivity|]. apply orb_true_r. Qed.

Lemma well_formed_create cfg : well_formed cfg (create cfg).
Proof.
  split; cbn; try done.
  all: try (intros _; by repeat split).
Qed.

Lemma well_formed_set_cachedToken_None cfg m :
  well_formed cfg m -> well_formed cfg (set_cachedToken None m).
Proof.
  intros [H1 H2 H3 H4 H5 H6]. split; cbn; try done.
  intros Hempty. destruct (H4 Hempty) as (Hr & _ & Hp). by repeat split.
Qed.

Lemma well_formed_getAccessToken cfg now m :
  well_formed cfg m -> well_formed cfg (snd (getAccessToken now m)).
Proof.
  intros Hwf. pose proof Hwf as [H1 H2 H3 H4 H5 H6].
  unfold getAccessToken.
  destruct (isTokenValid now m); [by destruct (cachedToken m)|].
  destruct (tokenRefreshPromise m) as [p|]; [done|].
  unfold refreshToken.
  destruct (negb (JS.truthy (clientId (config m))) || negb (JS.truthy (clientSecret (config m))))
    eqn:Hcred; cbn [snd].
  - split; cbn; try done.
    + intros p [= <-]. rewrite (list_lookup_middle _ [] _ _ eq_refl). by eexists.
    + intros Hempty. destruct (H4 Hempty) as (Hr & Hc & Hp).
      split; [done|]. split; [done|]. apply Forall_app. split; [done|].
      by repeat constructor.
    + intros c Hc. destruct (H5 c Hc) as [q Hq]. exists q.
      by apply lookup_app_l_Some.
    + rewrite length_app. cbn. lia.
  - split; cbn; try done.
    + intros p [= <-]. rewrite (list_lookup_middle _ [] _ _ eq_refl). by eexists.
    + apply Forall_app. split; [done|]. rewrite H1. by repeat constructor.
    + intros Hempty. rewrite H1 in Hcred.
      by rewrite (truthy_empty_false cfg Hempty) in Hcred.
    + intros c Hc. destruct (H5 c Hc) as [q Hq]. exists q.
      by apply lookup_app_l_Some.
    + rewrite !length_app. cbn. lia.
Qed.

Lemma well_formed_settle cfg now p reply m :
  well_formed cfg m -> well_formed cfg (refreshToken_settle now p reply m).
Proof.
  intros Hwf. pose proof Hwf as [H1 H2 H3 H4 H5 H6].
  unfold refreshToken_settle.
  destruct (promises m !! p) as [[| token | error]|] eqn:Hp; try done.
  assert (Hother : forall c st,
            st <> Pending ->
            cachedToken m = Some c ->
            exists q, <[p := st]> (promises m) !! q = Some (Fulfilled (accessToken c))).
  { intros c st _ Hc. destruct (H5 c Hc) as [q Hq]. exists q.
    rewrite list_lookup_insert_ne; [done|]. intros <-. congruence. }
  assert (Hconfigured : clientId cfg = "" \/ clientSecret cfg = "" -> False).
  { intros Hempty. destruct (H4 Hempty) as (_ & _ & Hall).
    rewrite Forall_lookup in Hall. by specialize (Hall p Pending Hp). }
  destruct reply as [[tokenData|] | failure]; split; cbn; try done.
  all: try (intros q Hq; destruct (H2 q Hq) as [st Hst]; apply lookup_lt_is_Some;
            rewrite length_insert; by apply lookup_lt_Some in Hst).
  all: try (intros Hempty; by destruct (Hconfigured Hempty)).
  all: try (by rewrite length_insert).
  all: try (intros c Hc; by apply Hother).
  intros c [= <-]. exists p. cbn.
  apply list_lookup_insert_eq. by apply lookup_lt_Some in Hp.
Qed.

Lemma well_formed_apply cfg o m :
  well_formed cfg m -> well_formed cfg (AuthRuns.apply o m).
Proof.
  intros Hwf. destruct o as [[now | now | now p reply | p]|]; cbn [AuthRuns.apply step].
  - pose proof (well_formed_getAccessToken cfg now m Hwf).
    by destruct (getAccessToken now m).
  - pose proof (well_formed_getAccessToken cfg now _
                  (well_formed_set_cachedToken_None cfg m Hwf)) as H.
    unfold forceRefresh. by destruct (getAccessToken now (set_cachedToken None m)).
  - by apply well_formed_settle.
  - cbn [snd]. destruct (settled m p); [|done].
    destruct Hwf as [H1 H2 H3 H4 H5 H6]. split; cbn; try done.
  - destruct Hwf as [H1 H2 H3 H4 H5 H6]. split; cbn; try done.
    intros Hempty. destruct (H4 Hempty) as (Hr & _ & Hp). by repeat split.
Qed.

Lemma well_formed_exec cfg os : forall m,
  well_formed cfg m -> well_formed cfg (AuthRuns.exec os m).
Proof.
  unfold AuthRuns.exec. induction os as [|o os IH]; intros m Hwf; [done|].
  cbn [fold_left]. by apply IH, well_formed_apply.
Qed.

(** X9. Whatever the callers do with a manager (calls of
    [getAccessToken], [forceRefresh] and [clearCache], replies of the token
    endpoint and [finally] blocks, in any order): the refresh marker always
    names a promise that exists; every token request is the client
    credentials request of the configuration; a manager without client id
    or secret never sends a request, never caches a token and only ever
    rejects with the invalid-credentials error; and a cached token is
    always the token some refresh was fulfilled with. *)
Theorem exec_well_formed (cfg : UPSConfig) (os : list AuthRuns.Op) :
  let m := AuthRuns.exec os (create cfg) in
  config m = cfg
  /\ (forall p, tokenRefreshPromise m = Some p -> is_Some (promises m !! p))
  /\ Forall (fun r => r = basic_request cfg) (tokenRequests m)
  /\ (clientId cfg = "" \/ clientSecret cfg = "" ->
      tokenRequests m = [] /\ cachedToken m = None
      /\ Forall (fun st => st = Rejected (InvalidCredentialsError "UPS")) (promises m))
  /\ (forall c, cachedToken m = Some c ->
      exists q, promises m !! q = Some (Fulfilled (accessToken c)))
  /\ (length (tokenRequests m) <= length (promises m))%nat.
Proof.
  intros m.
  destruct (well_formed_exec cfg os (create cfg) (well_formed_create cfg))
    as [H1 H2 H3 H4 H5 H6].
  exact (conj H1 (conj H2 (conj H3 (conj H4 (conj H5 H6))))).
Qed.

(** *** Without [clearCache]: one refresh at a time *)

Lemma run_cons e es m :
  snd (run (e :: es) m) = snd (run es (snd (step e m))).
Proof.
  cbn [run]. destruct (step e m) as [h m1]. cbn [snd].
  by destruct (run es m1) as [hs m2].
Qed.

Lemma getAccessToken_one_pending now m :
  (forall q, promises m !! q = Some Pending -> tokenRefreshPromise m = Some q) ->
  forall q, promises (snd (getAccessToken now m)) !! q = Some Pending ->
            tokenRefreshPromise (snd (getAccessToken now m)) = Some q.
Proof.
  intros J. unfold getAccessToken.
  destruct (isTokenValid now m); [by destruct (cachedToken m)|].
  destruct (tokenRefreshPromise m) as [p|] eqn:Hmarker.
  { cbn [snd]. intros q Hq. rewrite Hmarker. exact (J q Hq). }
  unfold refreshToken.
  destruct (negb (JS.truthy (clientId (config m))) || negb (JS.truthy (clientSecret (config m))));
    cbn [snd set_tokenRefreshPromise send set_promises promises tokenRefreshPromise];
    intros q Hq.
  - destruct (decide (q < length (promises m))%nat) as [Hlt|Hge].
    + rewrite lookup_app_l in Hq by done. by specialize (J q Hq).
    + destruct (decide (q = length (promises m))) as [->|Hne]; [|].
      * by rewrite (list_lookup_middle _ [] _ _ eq_refl) in Hq.
      * rewrite lookup_ge_None_2 in Hq; [done|]. rewrite length_app. cbn. lia.
  - destruct (decide (q < length (promises m))%nat) as [Hlt|Hge].
    + rewrite lookup_app_l in Hq by done. by specialize (J q Hq).
    + destruct (decide (q = length (promises m))) as [->|Hne]; [done|].
      rewrite lookup_ge_None_2 in Hq; [done|]. rewrite length_app. cbn. lia.
Qed.

Lemma step_one_pending e m :
  (forall q, promises m !! q = Some Pending -> tokenRefreshPromise m = Some q) ->
  match e with FinallyRuns p => tokenRefreshPromise m = Some p | _ => True end ->
  forall q, promises (snd (step e m)) !! q = Some Pending ->
            tokenRefreshPromise (snd (step e m)) = Some q.
Proof.
  intros J Horder. destruct e as [now | now | now p reply | p]; cbn [step].
  - pose proof (getAccessToken_one_pending now m J) as H.
    by destruct (getAccessToken now m).
  - pose proof (getAccessToken_one_pending now (set_cachedToken None m) J) as H.
    unfold forceRefresh. by destruct (getAccessToken now (set_cachedToken None m)).
  - cbn [snd]. intros q. rewrite settle_promises, settle_marker.
    destruct (promises m !! p) as [[| token | error]|] eqn:Hp; try apply J.
    destruct (decide (q = p)) as [->|Hne].
    + rewrite list_lookup_insert_eq by (by apply lookup_lt_Some in Hp).
      intros [= H]. by destruct (of_result_settled _ H).
    + rewrite list_lookup_insert_ne by done. apply J.
  - cbn [snd]. unfold settled. intros q.
    destruct (promises m !! p) as [[| token | error]|] eqn:Hp; try apply J.
    all: cbn; intros Hq; specialize (J q Hq); congruence.
Qed.

Lemma run_one_pending es : forall m,
  (forall q, promises m !! q = Some Pending -> tokenRefreshPromise m = Some q) ->
  orderly es m ->
  forall q, promises (snd (run es m)) !! q = Some Pending ->
            tokenRefreshPromise (snd (run es m)) = Some q.
Proof.
  induction es as [|e es IH]; intros m J Horder; [done|].
  destruct Horder as [He Hrest]. intros q. rewrite run_cons.
  apply IH; [|done]. by apply step_one_pending.
Qed.

(** X10. As long as nobody calls [clearCache], a manager has at most one
    refresh in flight at any time, whatever the callers and the token
    endpoint do: a pending refresh is always the one the marker names, so
    two pending refreshes are the same one. *)
Theorem one_refresh_in_flight (cfg : UPSConfig) (es : list Event) :
  orderly es (create cfg) ->
  let m := snd (run es (create cfg)) in
  (forall q, promises m !! q = Some Pending -> tokenRefreshPromise m = Some q)
  /\ (forall q q', promises m !! q = Some Pending -> promises m !! q' = Some Pending ->
                   q = q').
Proof.
  intros Horder m.
  assert (J : forall q, promises m !! q = Some Pending -> tokenRefreshPromise m = Some q).
  { apply run_one_pending; [|done]. intros q Hq. by cbn in Hq. }
  split; [exact J|]. intros q q' Hq Hq'.
  pose proof (J q Hq). pose proof (J q' Hq'). congruence.
Qed.

(** X10 on a run with two rounds of refresh. *)
Lemma one_refresh_in_flight_witness :
  let es := [CallGetAccessToken 0; CallGetAccessToken 1;
             TokenReplyArrives 2 0%nat (TokenFail (ThrownOther "down"));
             FinallyRuns 0%nat; CallGetAccessToken 3; CallForceRefresh 4] in
  orderly es (create testConfig)
  /\ promises (snd (run es (create testConfig)))
     = [Rejected (refreshToken_catch testConfig (ThrownOther "down")); Pending]
  /\ tokenRefreshPromise (snd (run es (create testConfig))) = Some 1%nat.
Proof.
  intros es.
  assert (H : orderly es (create testConfig)) by (by repeat split).
  split; [exact H|].
  pose proof (one_refresh_in_flight testConfig es H) as [J _].
  split; [reflexivity|]. by apply (J 1%nat).
Defined.

(** X11. [clearCache] while a refresh is in flight forgets the marker but
    not the refresh: the next [getAccessToken] starts a second refresh
    with its own token request, so two are pending at once; the reply to
    the forgotten refresh still fills the cache that was cleared; and the
    [finally] block of its starter then clears the marker of the second
    refresh, which is still pending. *)
Theorem clearCache_during_refresh (m : UPSAuthManager) (p : nat) (now later : Z)
    (tokenData : Wire.UPSTokenResponse) :
  configured (config m) ->
  tokenRefreshPromise m = Some p ->
  promises m !! p = Some Pending ->
  let p' := length (promises m) in
  let m1 := snd (getAccessToken now (clearCache m)) in
  let m2 := refreshToken_settle later p (TokenOk (Some tokenData)) m1 in
  let m3 := snd (step (FinallyRuns p) m2) in
  fst (getAccessToken now (clearCache m)) = Started p'
  /\ p' <> p
  /\ tokenRequests m1 = tokenRequests m ++ [basic_request (config m)]
  /\ promises m1 !! p = Some Pending
  /\ promises m1 !! p' = Some Pending
  /\ cachedToken m2 = Some (credential later tokenData)
  /\ promises m2 !! p' = Some Pending
  /\ tokenRefreshPromise m2 = Some p'
  /\ tokenRefreshPromise m3 = None
  /\ promises m3 !! p' = Some Pending.
Proof.
  intros Hcfg Hmarker Hp p' m1 m2 m3.
  assert (Hlt : (p < length (promises m))%nat) by (by apply lookup_lt_Some in Hp).
  assert (Hne : p' <> p) by (unfold p'; lia).
  assert (Hget : getAccessToken now (clearCache m)
                 = (Started p',
                    set_tokenRefreshPromise (Some p')
                      (send (basic_request (config m))
                         (set_promises (promises m ++ [Pending]) (clearCache m))))).
  { rewrite (getAccessToken_invalid_none (clearCache m) now) by reflexivity.
    by rewrite (refreshToken_configured (clearCache m) Hcfg). }
  assert (Hm1 : m1 = set_tokenRefreshPromise (Some p')
                       (send (basic_request (config m))
                          (set_promises (promises m ++ [Pending]) (clearCache m)))).
  { unfold m1. by rewrite Hget. }
  assert (Hp1 : promises m1 !! p = Some Pending).
  { rewrite Hm1. cbn. by rewrite lookup_app_l. }
  assert (Hp1' : promises m1 !! p' = Some Pending).
  { rewrite Hm1. unfold p'. cbn. by rewrite (list_lookup_middle _ [] _ _ eq_refl). }
  assert (Hm2 : m2 = set_promises (<[p := Fulfilled (Wire.access_token tokenData)]> (promises m1))
                       (set_cachedToken (Some (credential later tokenData)) m1)).
  { unfold m2, refreshToken_settle. by rewrite Hp1. }
  assert (Hp2' : promises m2 !! p' = Some Pending).
  { rewrite Hm2. cbn [promises set_promises]. by rewrite list_lookup_insert_ne. }
  assert (Hp2 : promises m2 !! p = Some (Fulfilled (Wire.access_token tokenData))).
  { rewrite Hm2. cbn [promises set_promises]. apply list_lookup_insert_eq.
    by apply lookup_lt_Some in Hp1. }
  assert (Hm3 : m3 = getAccessToken_finally m2).
  { unfold m3. cbn [step snd]. unfold settled. by rewrite Hp2. }
  rewrite Hget. cbn [fst]. repeat split; try done.
  - rewrite Hm1. reflexivity.
  - rewrite Hm2. reflexivity.
  - rewrite Hm2, Hm1. reflexivity.
  - rewrite Hm3. reflexivity.
  - rewrite Hm3. exact Hp2'.
Qed.

(** X11 on a fresh manager: a call, [clearCache], a second call. *)
Lemma clearCache_during_refresh_witness :
  let m := snd (getAccessToken 0 (create testConfig)) in
  (configured (config m) /\ tokenRefreshPromise m = Some 0%nat
   /\ promises m !! 0%nat = Some Pending)
  /\ fst (getAccessToken 1 (clearCache m)) = Started 1%nat
  /\ length (tokenRequests (snd (getAccessToken 1 (clearCache m)))) = 2%nat.
Proof.
  intros m.
  assert (Hcfg : configured (config m)) by (by split).
  pose proof (clearCache_during_refresh m 0%nat 1 2 successfulTokenResponse Hcfg
                eq_refl eq_refl) as H.
  cbv zeta in H. destruct H as (Hstarted & _ & Hsent & _).
  split; [by repeat split|]. split; [exact Hstarted|]. by rewrite Hsent.
Defined.

End AuthRunProperties.

(* ===================================================================== *)
(** ** [getRates] as a whole *)
(* ===================================================================== *)

Section RatesProperties.
Import Domain Service.









Lemma validateRateRequest_inr r r' : validateRateRequest r = inr r' -> r' = r.
Proof.
  unfold validateRateRequest. destruct (RateRequestSchema r); [|done]. by intros [= <-].
Qed.



(** *** How many requests a call can send *)

Lemma auth_getAccessToken_sends now m :
  exists l, Auth.tokenRequests (snd (Auth.getAccessToken now m))
            = Auth.tokenRequests m ++ l
            /\ (length l <= 1)%nat.
Proof.
  unfold Auth.getAccessToken.
  destruct (Auth.isTokenValid now m).
  { exists []. split; [|cbn; lia]. rewrite app_nil_r. by destruct (Auth.cachedToken m). }
  destruct (Auth.tokenRefreshPromise m) as [p|].
  { exists []. split; [by rewrite app_nil_r|cbn; lia]. }
  unfold Auth.refreshToken.
  destruct (negb (JS.truthy (clientId (Auth.config m)))
            || negb (JS.truthy (clientSecret (Auth.config m)))); cbn.
  - exists []. split; [by rewrite app_nil_r|cbn; lia].
  - eexists [_]. split; [reflexivity|cbn; lia].
Qed.

Lemma await_tokenRequests (w : World) (h : Auth.Handle) (s : UPSRateService) :
  Auth.tokenRequests (authManager (snd (await w h s)))
  = Auth.tokenRequests (authManager s).
Proof.
  destruct h as [t | p | p]; [reflexivity| |];
    unfold await, bind, now; cbn [snd authManager set_authManager];
    [|unfold Auth.getAccessToken_finally; cbn [Auth.tokenRequests Auth.set_tokenRefreshPromise]];
    apply settle_sent.
Qed.

Lemma getAccessToken_sends (w : World) (s : UPSRateService) :
  exists l, Auth.tokenRequests (authManager (snd (getAccessToken w s)))
            = Auth.tokenRequests (authManager s) ++ l
            /\ (length l <= 1)%nat.
Proof.
  unfold getAccessToken, bind, now. cbn [authManager].
  destruct (auth_getAccessToken_sends (clock w (ticks s)) (authManager s)) as (l & Hl & Hlen).
  destruct (Auth.getAccessToken (clock w (ticks s)) (authManager s)) as [h m].
  cbn [snd] in Hl. exists l. split; [|done].
  by rewrite await_tokenRequests.
Qed.

Lemma forceRefresh_sends (w : World) (s : UPSRateService) :
  exists l, Auth.tokenRequests (authManager (snd (forceRefresh w s)))
            = Auth.tokenRequests (authManager s) ++ l
            /\ (length l <= 1)%nat.
Proof.
  unfold forceRefresh, bind, now, Auth.forceRefresh. cbn [authManager].
  destruct (auth_getAccessToken_sends (clock w (ticks s))
              (Auth.set_cachedToken None (authManager s))) as (l & Hl & Hlen).
  destruct (Auth.getAccessToken (clock w (ticks s))
              (Auth.set_cachedToken None (authManager s))) as [h m].
  cbn [snd] in Hl. exists l. split; [|done].
  by rewrite await_tokenRequests.
Qed.

(** When the token cannot be had, [getRates] ends as the acquisition
    ended. *)
Lemma getRates_without_token (w : World) (request validatedRequest : RateRequest)
    (s s1 : UPSRateService) (r : option (CarrierServiceError + string)) :
  validateRateRequest request = inr validatedRequest ->
  getAccessToken w s = (r, s1) ->
  (forall token, r <> Some (inr token)) ->
  getRates w request s
  = (match r with Some (inl e) => Some (inl (ThrownService e)) | _ => None end, s1).
Proof.
  intros Hvalid Htoken Hr.
  unfold getRates, bind at 1, validateRequest. rewrite Hvalid. cbn [ret].
  unfold bind at 1. rewrite Htoken.
  destruct r as [[e | token]|]; [reflexivity | by destruct (Hr token) | reflexivity].
Qed.

(** X13. One call of [getRates] sends at most two rating requests and at
    most two token requests, whatever the endpoints answer.  Every rating
    request it sends is the POST of the same wire request with the same
    request id, differing at most by the token; it sends one only for a
    request the schema accepts, and a second one only after the first was
    answered with status 401 or 403. *)
Theorem getRates_budget (w : World) (request : RateRequest) (s : UPSRateService) :
  let s' := snd (getRates w request s) in
  exists posts tokens,
    ratingRequests s' = ratingRequests s ++ posts
    /\ (length posts <= 2)%nat
    /\ Auth.tokenRequests (authManager s')
       = Auth.tokenRequests (authManager s) ++ tokens
    /\ (length tokens <= 2)%nat
    /\ Forall (fun post =>
                 exists token,
                   post = ratingPost (wireRequest w (config s) request) token
                            (generateRequestId w)) posts
    /\ (posts <> [] -> validateRateRequest request = inr request)
    /\ (length posts = 2%nat ->
        exists error,
          rating_result (config s) (generateRequestId w)
            (ratingEndpoint w (length (ratingRequests s))) = inl error
          /\ isAuthError error = true).
Proof.
  intros s'. subst s'.
  assert (Hcases : (exists issues, validateRateRequest request = inl issues)
                   \/ validateRateRequest request = inr request).
  { destruct (validateRateRequest request) as [issues | validatedRequest] eqn:Hvalid.
    - left. by exists issues.
    - right. by rewrite (validateRateRequest_inr _ _ Hvalid). }
  destruct Hcases as [[issues Hinvalid] | Hvalid].
  { exists [], []. unfold getRates, bind, validateRequest. rewrite Hinvalid.
    cbn [throw snd fst]. rewrite !app_nil_r.
    repeat match goal with |- _ /\ _ => split end; try done; cbn; lia. }
  destruct (getAccessToken_frame w s) as [Hcfg1 Hsent1].
  destruct (getAccessToken_sends w s) as (l1 & Hl1 & Hlen1).
  assert (Hfails : forall (r : option (CarrierServiceError + string)) s1,
            ratingRequests s1 = ratingRequests s ->
            Auth.tokenRequests (authManager s1)
            = Auth.tokenRequests (authManager s) ++ l1 ->
            exists posts tokens,
              ratingRequests s1 = ratingRequests s ++ posts
              /\ (length posts <= 2)%nat
              /\ Auth.tokenRequests (authManager s1)
                 = Auth.tokenRequests (authManager s) ++ tokens
              /\ (length tokens <= 2)%nat
              /\ Forall (fun post =>
                           exists token,
                             post = ratingPost (wireRequest w (config s) request) token
                                      (generateRequestId w)) posts
              /\ (posts <> [] -> validateRateRequest request = inr request)
              /\ (length posts = 2%nat ->
                  exists error,
                    rating_result (config s) (generateRequestId w)
                      (ratingEndpoint w (length (ratingRequests s))) = inl error
                    /\ isAuthError error = true)).
  { intros r s1 Hs Ht. exists [], l1. rewrite app_nil_r.
    repeat match goal with |- _ /\ _ => split end; try done; cbn; lia. }
  destruct (getAccessToken w s) as [[[error | accessToken]|] s1] eqn:Htoken;
    cbn [snd] in Hcfg1, Hsent1, Hl1.
  - rewrite (getRates_without_token w request request s s1 _ Hvalid Htoken) by done.
    cbn [snd]. by apply (Hfails None).
  - clear Hfails.
    rewrite (getRates_after_token w request request s s1 accessToken Hvalid Htoken).
    set (requestId := generateRequestId w).
    set (upsRequest := wireRequest w (config s) request).
    set (first := ratingPost upsRequest accessToken requestId).
    assert (Hone : forall s2,
              ratingRequests s2 = ratingRequests s ++ [first] ->
              forall tokens,
              Auth.tokenRequests (authManager s2)
              = Auth.tokenRequests (authManager s) ++ tokens ->
              (length tokens <= 2)%nat ->
              exists posts tokens,
                ratingRequests s2 = ratingRequests s ++ posts
                /\ (length posts <= 2)%nat
                /\ Auth.tokenRequests (authManager s2)
                   = Auth.tokenRequests (authManager s) ++ tokens
                /\ (length tokens <= 2)%nat
                /\ Forall (fun post =>
                             exists token, post = ratingPost upsRequest token requestId)
                          posts
                /\ (posts <> [] -> validateRateRequest request = inr request)
                /\ (length posts = 2%nat ->
                    exists error,
                      rating_result (config s) requestId
                        (ratingEndpoint w (length (ratingRequests s))) = inl error
                      /\ isAuthError error = true)).
    { intros s2 Hs tokens Ht Hlen. exists [first], tokens.
      repeat match goal with |- _ /\ _ => split end; try done.
      - cbn; lia.
      - repeat constructor. by exists accessToken. }
    destruct (rating_result (config s) requestId
                (ratingEndpoint w (length (ratingRequests s)))) as [error | response]
      eqn:Hfirst.
    + destruct (isAuthError error) eqn:Hauth.
      * destruct (forceRefresh_frame w (having_sent first s1)) as [_ Hsent3].
        destruct (forceRefresh_sends w (having_sent first s1)) as (l3 & Hl3 & Hlen3).
        cbn [having_sent ratingRequests authManager] in Hsent3, Hl3.
        rewrite Hsent1 in Hsent3. rewrite Hl1, <- app_assoc in Hl3.
        destruct (forceRefresh w (having_sent first s1))
          as [[[refreshError | freshToken]|] s3]; cbn [snd] in Hsent3, Hl3 |- *.
        -- apply (Hone s3 Hsent3 (l1 ++ l3) Hl3). rewrite length_app. lia.
        -- exists [first; ratingPost upsRequest freshToken requestId], (l1 ++ l3).
           cbn [having_sent ratingRequests authManager].
           rewrite Hsent3, Hl3, <- app_assoc, length_app.
           repeat match goal with |- _ /\ _ => split end; try done.
           all: try (cbn; lia).
           all: try (repeat constructor; [by exists accessToken | by exists freshToken]).
           all: try (intros _; by exists error).
        -- apply (Hone s3 Hsent3 (l1 ++ l3) Hl3). rewrite length_app. lia.
      * cbn [snd]. apply (Hone (having_sent first s1) ltac:(cbn; by rewrite Hsent1) l1); [|lia].
        cbn. exact Hl1.
    + cbn [snd]. apply (Hone (having_sent first s1) ltac:(cbn; by rewrite Hsent1) l1); [|lia].
      cbn. exact Hl1.
  - rewrite (getRates_without_token w request request s s1 _ Hvalid Htoken) by done.
    cbn [snd]. by apply (Hfails None).
Qed.

(** *** The token from one call to the next *)



End RatesProperties.

(* ===================================================================== *)
(** ** Validation and mapping together *)
(* ===================================================================== *)

Section WeightProperties.
Import Domain.

Lemma nearest_tenths_bounds (q : Q) (n : N) :
  (0 < q)%Q -> (q <= inject_Z 150)%Q ->
  nearest (Z.of_N n) (Qabs q * inject_Z 10) ->
  nearest (Z.of_N n) (q * inject_Z 10)
  /\ (n <= 1500)%N
  /\ ((q < 1 # 20)%Q -> n = 0%N).
Proof.
  destruct q as [a d]. unfold nearest, Qabs, Qlt, Qle, Qminus, Qplus, Qopp, Qmult, inject_Z.
  cbn. intros Hpos Hmax. rewrite (Z.abs_eq a) by lia. intros [Hlow Hhigh].
  split; [by split|]. split; [nia|]. intros Hsmall. nia.
Qed.

(** X15. Every package of a request the schema accepts goes on the wire
    with its weight written as a number of tenths [n] with one decimal
    place, without a sign: [n] is the number of tenths nearest to the
    weight and is at most 1500.  A weight below 0.05 is accepted by the
    schema and goes out as "0.0". *)
Theorem accepted_weight_on_the_wire (finiteToString : Q -> string)
    (request : RateRequest) (shipperNumber : string) (customerContext : option string) :
  acceptable request ->
  let wire := Mapper.toUPSRateRequest finiteToString request shipperNumber customerContext in
  forall i pkg,
    packages request !! i = Some pkg ->
    exists entry q (n : N),
      Wire.Package wire !! i = Some entry
      /\ weight_value (weight pkg) = JS.Fin q
      /\ Wire.PackageWeight_Weight entry = one_decimal n
      /\ nearest (Z.of_N n) (q * inject_Z 10)
      /\ (n <= 1500)%N
      /\ ((q < 1 # 20)%Q -> Wire.PackageWeight_Weight entry = "0.0").
Proof.
  intros (_ & _ & _ & Hall) wire i pkg Hpkg.
  rewrite Forall_lookup in Hall. destruct (Hall i pkg Hpkg) as [(q & Hq & Hpos & Hmax) _].
  assert (Hsmall : (Qabs q < inject_Z (10 ^ 21))%Q).
  { destruct q as [a d]. unfold Qabs, Qlt, Qle, inject_Z in *. cbn in *.
    rewrite (Z.abs_eq a) by lia. nia. }
  destruct (toFixed_one_decimal finiteToString q Hsmall) as (n & Hnear & Hfixed).
  destruct (nearest_tenths_bounds q n Hpos Hmax Hnear) as (Hnear' & Hbound & Hzero).
  assert (Hsign : (Qnum q <? 0) = false).
  { apply Z.ltb_ge. destruct q as [a d]. unfold Qlt in Hpos. cbn in *. lia. }
  rewrite Hsign in Hfixed. rewrite string_app_nil_l in Hfixed.
  exists (Mapper.toUPSPackage finiteToString pkg), q, n.
  split.
  { unfold wire, Mapper.toUPSRateRequest. cbn [Wire.Package].
    by rewrite list_lookup_fmap, Hpkg. }
  cbn [Mapper.toUPSPackage Wire.PackageWeight_Weight]. rewrite Hq.
  repeat match goal with |- _ /\ _ => split end; try done.
  intros Hlight. by rewrite Hfixed, (Hzero Hlight).
Qed.

(** X15 on a package of 0.04 pounds. *)
Lemma accepted_weight_on_the_wire_witness :
  let light := mkPackage (mkWeight (JS.Fin (4 # 100)) LB) None in
  let request :=
    mkRateRequest (origin validRateRequest) (destination validRateRequest)
                  (shipper validRateRequest) [light] None in
  acceptable request
  /\ validateRateRequest request = inr request
  /\ Wire.PackageWeight_Weight <$> Wire.Package (Mapper.toUPSRateRequest noPrinter request "A1" None)
     = ["0.0"].
Proof.
  intros light request.
  assert (Hok : acceptable request).
  { repeat split; cbn; try lia; try done.
    repeat constructor. exists (4 # 100). by repeat split. }
  destruct (accepted_weight_on_the_wire noPrinter request "A1" None Hok 0%nat light eq_refl)
    as (entry & q & n & _).
  split; [exact Hok|]. by split.
Defined.

End WeightProperties.
